(** * retro.scan: N-dimensional parameter scan of a metric

    A shallow embedding of [src/retro/scan.py] and the properties of its
    single function [scan].  Python objects that can reach [scan_values]
    are a small tagged universe, exceptions are values of [exn], fallible
    steps live in the [result] monad, the mapping handed to the metric is
    a [gmap] keyed by parameter name, and the two observable effects of the
    loop (metric invocations and progress lines) are recorded in a
    [trace].

    The file closes with the parts of the driver script
    [src/retro/retro_dom_pdfs.py] that are computed from the name of the
    code under test: the settings read off that name and the table files
    the script loads. *)

From Stdlib Require Import ZArith List Lia Ascii.
From stdpp Require Import base option list strings pretty gmap fin_maps.

Local Open Scope string_scope.
Local Open Scope nat_scope.
Local Open Scope list_scope.

(** ** Exceptions and fallible computations *)

Inductive exn : Type :=
| StopIteration
| TypeError
| ValueError
| OverflowError
| OtherError (tag : nat).

Inductive result (A : Type) : Type :=
| Ok (a : A)
| Raise (e : exn).
Arguments Ok {A} a.
Arguments Raise {A} e.

#[global] Instance result_ret : MRet result := fun A a => Ok a.
#[global] Instance result_bind : MBind result := fun A B f r =>
  match r with
  | Ok a => f a
  | Raise e => Raise e
  end.

Definition is_ok {A} (r : result A) : bool :=
  match r with Ok _ => true | Raise _ => false end.

(** ** Python objects reaching [scan_values]

    [PNum] is a numeric scalar, [PSeq] a list or tuple (an instance of
    [collections.Sequence]), [PArr] an iterable that can be iterated again
    but is no [Sequence] (an ndarray), [PGen] a one-shot iterator holding
    the items it has not yet produced, [PNone] an object that is neither
    scalar nor iterable.  [scan] never inspects the payload of a scalar. *)

#[local] Set Warnings "-register-all".
Inductive pyval : Type :=
| PNum (x : Z)
| PSeq (items : list pyval)
| PArr (items : list pyval)
| PGen (items : list pyval)
| PNone.

(** [np.isscalar] *)
Definition np_isscalar (v : pyval) : bool :=
  match v with PNum _ => true | _ => false end.

(** [isinstance(v, Sequence)] *)
Definition isinstance_Sequence (v : pyval) : bool :=
  match v with PSeq _ => true | _ => false end.

(** [next(iter(v))]: the first item, and the object as the call leaves it.
    Only a one-shot iterator is advanced. *)
Definition next_iter (v : pyval) : result (pyval * pyval) :=
  match v with
  | PSeq (x :: _) | PArr (x :: _) => Ok (x, v)
  | PGen (x :: rest) => Ok (x, PGen rest)
  | PSeq [] | PArr [] | PGen [] => Raise StopIteration
  | PNum _ | PNone => Raise TypeError
  end.

(** The items a [for] loop or [list(v)] draws from [v]. *)
Definition py_list (v : pyval) : result (list pyval) :=
  match v with
  | PSeq l | PArr l | PGen l => Ok l
  | PNum _ | PNone => Raise TypeError
  end.

(** [dict(pairs)]: a later pair overrides an earlier one with the same key. *)
Definition py_dict (pairs : list (string * pyval)) : gmap string pyval :=
  fold_left (fun m kv => <[kv.1 := kv.2]> m) pairs ∅.

(** [enumerate] *)
Fixpoint enumerate_from {A} (n : nat) (l : list A) : list (nat * A) :=
  match l with
  | [] => []
  | x :: r => (n, x) :: enumerate_from (S n) r
  end.

Definition enumerate {A} (l : list A) : list (nat * A) := enumerate_from 0 l.

(** [itertools.product] applied to the pools, after its reference
    implementation:
    [result = [[]]], then for each pool
    [result = [x + [y] for x in result for y in pool]]. *)
Definition product_step {A} (result : list (list A)) (pool : list A)
  : list (list A) :=
  flat_map (fun x => map (fun y => x ++ [y]) pool) result.

Definition product {A} (pools : list (list A)) : list (list A) :=
  fold_left product_step pools [[]].

(** ** Dense arrays

    An array is its shape and its buffer in C (row-major) order. *)

Record ndarray (F : Type) : Type := mk_ndarray
  { shape : list nat;
    data : list F }.
Arguments mk_ndarray {F} shape data.
Arguments shape {F} _.
Arguments data {F} _.

Definition list_prod (l : list nat) : nat := fold_right Nat.mul 1 l.

(** A dtype is its element conversion, which may raise. *)
Definition dtype (V F : Type) : Type := V → result F.

(** [np.array(vals, dtype=dt)] on a flat list of scalars: the elements are
    converted in order and the first failure is raised. *)
Fixpoint np_array {V F} (dt : dtype V F) (vals : list V) : result (list F) :=
  match vals with
  | [] => Ok []
  | v :: r => x ← dt v; xs ← np_array dt r; Ok (x :: xs)
  end.

(** [a.reshape(shape)]: the buffer is kept, the element count must agree. *)
Definition reshape {F} (buf : list F) (shape : list nat) : result (ndarray F) :=
  if list_prod shape =? length buf then Ok (mk_ndarray shape buf)
  else Raise ValueError.

(** ** The scan *)

Record trace : Type := mk_trace
  { calls : list (gmap string pyval);
    reports : list nat }.

Definition report_after : nat := 500.

(** [n > 0 and n % report_after == 0] *)
Definition report_due (n : nat) : bool :=
  (0 <? n) && (n mod report_after =? 0).

(** Lines 84-96: the axis sequences [scan_sequences]. *)
Definition to_sequence (sv : pyval) : result (list pyval) :=
  if isinstance_Sequence sv then py_list sv
  else if np_isscalar sv then Ok [sv]
  else py_list sv.

Fixpoint to_sequences (svs : list pyval) : result (list (list pyval)) :=
  match svs with
  | [] => Ok []
  | sv :: r => s ← to_sequence sv; ss ← to_sequences r; Ok (s :: ss)
  end.

Definition normalize (scan_values : pyval) : result (list (list pyval)) :=
  '(first, scan_values) ← next_iter scan_values;
  let scan_values :=
    if np_isscalar first then PSeq [scan_values] else scan_values in
  svs ← py_list scan_values;
  to_sequences svs.

Section Scan.
Context {V F : Type}.
(** [FTYPE] comes from the package's [__init__].  [metric] is the callable
    with [metric_kw] bound, taken as a function of the mapping it is given:
    it returns a value or raises.  [console n] is the exception, if any,
    that writing the progress line at point [n] raises. *)
Variable FTYPE : dtype V F.
Variable hypo_params : list string.
Variable metric : gmap string pyval → result V.
Variable console : nat → option exn.

(** Lines 103-114.  The text of the progress line is not part of the
    model: [total_points] (line 98) and the clock readings [times] feed
    nothing else. *)
Fixpoint scan_loop (points : list (nat * list pyval))
    (tr : trace) (metric_vals : list V) : trace * result (list V) :=
  match points with
  | [] => (tr, Ok metric_vals)
  | (n, param_values) :: rest =>
      let arg := py_dict (zip hypo_params param_values) in
      let tr := mk_trace (calls tr ++ [arg]) (reports tr) in
      match metric arg with
      | Raise e => (tr, Raise e)
      | Ok metric_val =>
          let metric_vals := metric_vals ++ [metric_val] in
          if report_due n then
            match console n with
            | Some e => (tr, Raise e)
            | None =>
                scan_loop rest (mk_trace (calls tr) (reports tr ++ [n]))
                  metric_vals
            end
          else scan_loop rest tr metric_vals
      end
  end.

Definition scan (scan_values : pyval) : trace * result (ndarray F) :=
  match normalize scan_values with
  | Raise e => (mk_trace [] [], Raise e)
  | Ok scan_sequences =>
      let shape := map length scan_sequences in
      let '(tr, r) :=
        scan_loop (enumerate (product scan_sequences)) (mk_trace [] []) [] in
      (tr, metric_vals ← r;
           buf ← np_array FTYPE metric_vals;
           reshape buf shape)
  end.
End Scan.

(** ** Integer-valued metrics and binary floating point

    A metric that returns Python integers, or an object with no float
    conversion.  On integers the conversion to a binary float is exact
    integer arithmetic: round to nearest, ties to even, on the significand
    width, first to a C double and then, for a 32-bit [FTYPE], to a C float.
    A Python integer beyond the range of a double raises [OverflowError]; a
    double beyond the range of a float becomes an infinity. *)

Inductive mval : Type :=
| MInt (z : Z)
| MObj.

Inductive ftype : Type := Float32 | Float64.

Inductive fval : Type :=
| Finite (z : Z)
| Infinite (negative : bool).

Definition round_sig (p z : Z) : Z :=
  let a := Z.abs z in
  let e := (Z.log2 a + 1 - p)%Z in
  if (e <=? 0)%Z then z
  else
    let q := Z.shiftr a e in
    let r := Z.land a (Z.ones e) in
    let half := Z.shiftl 1 (e - 1) in
    let q' := if (half <? r)%Z || ((r =? half)%Z && Z.odd q)
              then (q + 1)%Z else q in
    (Z.sgn z * Z.shiftl q' e)%Z.

Definition to_double (z : Z) : result Z :=
  let r := round_sig 53 z in
  if (Z.abs r <? 2 ^ 1024)%Z then Ok r else Raise OverflowError.

Definition to_float (r : Z) : fval :=
  let s := round_sig 24 r in
  if (Z.abs s <? 2 ^ 128)%Z then Finite s else Infinite (s <? 0)%Z.

Definition float_dtype (t : ftype) : dtype mval fval := fun v =>
  match v with
  | MObj => Raise TypeError
  | MInt z =>
      r ← to_double z;
      Ok (match t with Float64 => Finite r | Float32 => to_float r end)
  end.

(** ** Specification-side notions

    The definitions below say what the scan is expected to compute; they
    are not used by [scan]. *)

(** The values of one axis: a bare scalar is a fixed axis of length one. *)
Definition materialize (axis : pyval) : list pyval :=
  match axis with
  | PNum x => [PNum x]
  | PSeq l | PArr l | PGen l => l
  | PNone => []
  end.

(** The elements of a collection or iterator. *)
Definition items (v : pyval) : list pyval :=
  match v with
  | PSeq l | PArr l | PGen l => l
  | PNum _ | PNone => []
  end.

Definition is_collection (v : pyval) : bool :=
  match v with PSeq _ | PArr _ => true | _ => false end.

(** The axes a specification stands for: when its first element is a bare
    scalar the whole specification is the single axis. *)
Definition spec_axes (specs : pyval) : list pyval :=
  match items specs with
  | PNum _ :: _ => [specs]
  | axes => axes
  end.

Definition grid (specs : pyval) : list (list pyval) :=
  map materialize (spec_axes specs).

Definition is_axis (axis : pyval) : bool :=
  match axis with PNone => false | _ => true end.

(** A valid specification: a non-empty collection whose axes are scalars or
    iterables. *)
Definition valid_spec (specs : pyval) : bool :=
  is_collection specs
  && negb (Nat.eqb (length (items specs)) 0)
  && forallb is_axis (spec_axes specs).

(** Nested loops over the axes, the first axis outermost and the last one
    innermost. *)
Fixpoint nested_loops {A} (pools : list (list A)) : list (list A) :=
  match pools with
  | [] => [[]]
  | pool :: rest =>
      flat_map (fun x => map (cons x) (nested_loops rest)) pool
  end.

(** Row-major position of a multi-index, and the element stored there. *)
Fixpoint ravel (shape idx : list nat) : nat :=
  match shape, idx with
  | _ :: s, i :: r => i * list_prod s + ravel s r
  | _, _ => 0
  end.

Definition nd_get {F} (a : ndarray F) (idx : list nat) : option F :=
  data a !! ravel (shape a) idx.

(** All multi-indices of a shape in row-major order, and the array read out
    in that order. *)
Definition ndindex (shape : list nat) : list (list nat) :=
  nested_loops (map (seq 0) shape).

Definition nd_flatten {F} (a : ndarray F) : list (option F) :=
  map (nd_get a) (ndindex (shape a)).

(** The grid point selected by a multi-index. *)
Fixpoint point_at (pools : list (list pyval)) (idx : list nat)
  : option (list pyval) :=
  match pools, idx with
  | [], [] => Some []
  | pool :: ps, i :: r =>
      x ← pool !! i; p ← point_at ps r; Some (x :: p)
  | _, _ => None
  end.

Definition in_range (shape idx : list nat) : Prop := Forall2 lt idx shape.

(** The mapping handed to the metric at a point. *)
Definition point_mapping (names : list string) (point : list pyval)
  : gmap string pyval :=
  py_dict (zip names point).

(** What a clean run needs of the environment: the metric returns on each
    point, each returned value converts, and the progress lines due among
    the first [total] points are written. *)
Section Environment.
Context {V F : Type}.
Variable FTYPE : dtype V F.
Variable names : list string.
Variable metric : gmap string pyval → result V.
Variable console : nat → option exn.

Definition metric_returns (points : list (list pyval)) : bool :=
  forallb (fun p => is_ok (metric (point_mapping names p))) points.

Definition results_convert (points : list (list pyval)) : bool :=
  forallb (fun p => match metric (point_mapping names p) with
                    | Ok v => is_ok (FTYPE v)
                    | Raise _ => true
                    end) points.

Definition console_works (total : nat) : bool :=
  forallb (fun n => negb (report_due n) || bool_decide (console n = None))
    (seq 0 total).

(** The element of the result that belongs to a point. *)
Definition result_at (p : list pyval) (x : F) : Prop :=
  ∃ v, metric (point_mapping names p) = Ok v ∧ FTYPE v = Ok x.
End Environment.

(** The progress lines written while the points [0 .. total-1] are
    evaluated. *)
Definition reports_upto (total : nat) : list nat :=
  filter (fun n => report_due n = true) (seq 0 total).

(** The outcome the specification calls a configuration error: an exception
    and no metric invocation. *)
Definition rejected {A} (r : trace * result A) : Prop :=
  calls r.1 = [] ∧ ∃ e, r.2 = Raise e.

(** ** Concrete environments used in the examples *)

(** A console that accepts every line, and one that raises [e] at point [k]. *)
Definition quiet : nat → option exn := fun _ => None.

Definition console_broken_at (k : nat) (e : exn) : nat → option exn :=
  fun n => if n =? k then Some e else None.

(** The metric [value_a * 100 + value_b]; a missing key is a [KeyError],
    rendered as [OtherError 0]. *)
Definition metric_a100b : gmap string pyval → result mval := fun d =>
  match d !! "a", d !! "b" with
  | Some (PNum va), Some (PNum vb) => Ok (MInt (va * 100 + vb))
  | _, _ => Raise (OtherError 0)
  end.

(** The metric that reads parameter [a] only, and a constant metric. *)
Definition metric_a : gmap string pyval → result mval := fun d =>
  match d !! "a" with
  | Some (PNum va) => Ok (MInt va)
  | _ => Raise (OtherError 0)
  end.

Definition metric_const (z : Z) : gmap string pyval → result mval :=
  fun _ => Ok (MInt z).

Definition nums (zs : list Z) : list pyval := map PNum zs.

(** The axis [range(n)]. *)
Definition py_range (n : nat) : pyval := PSeq (map (fun i => PNum (Z.of_nat i)) (seq 0 n)).

(** A metric that raises [e] where parameter [b] equals [bad]. *)
Definition metric_b_except (bad : Z) (e : exn)
  : gmap string pyval → result mval := fun d =>
  match d !! "b" with
  | Some (PNum vb) => if (vb =? bad)%Z then Raise e else Ok (MInt vb)
  | _ => Raise (OtherError 0)
  end.

(** The specification's example grid [a = 1, 2] by [b = 10, 20, 30]. *)
Definition example_axes : pyval :=
  PSeq [PSeq (nums [1; 2]); PSeq (nums [10; 20; 30])]%Z.

(** The significand width of a float type, and the metrics whose results
    are integers that fit in it. *)
Definition sig_bits (t : ftype) : Z :=
  match t with Float32 => 24 | Float64 => 53 end.

Definition integer_results (t : ftype) (names : list string)
    (metric : gmap string pyval → result mval) (points : list (list pyval))
  : bool :=
  forallb (fun p => match metric (point_mapping names p) with
                    | Ok (MInt z) => (Z.abs z <? 2 ^ sig_bits t)%Z
                    | _ => false
                    end) points.

(** ** The driver script [retro_dom_pdfs.py]: table files and settings

    The parts of the script that are computed from the name
    [CODE_TO_TEST] and the list [doms]: which table class is used, the
    settings read off the name, and the table files that are loaded.
    Float-valued settings ([ckv_sigma_deg], [dt]) are left out; float
    constants that are only passed on are kept as their literals.  The
    settings of lines 183-207 are those of the [CLSimTables] branch. *)

(** [s.startswith(p)], giving what follows the prefix. *)
Fixpoint starts_with (p s : string) : option string :=
  match p, s with
  | EmptyString, _ => Some s
  | String a p', String b s' => if Ascii.eqb a b then starts_with p' s' else None
  | String _ _, EmptyString => None
  end.

(** [sub in s] *)
Fixpoint py_in (sub s : string) : bool :=
  match starts_with sub s with
  | Some _ => true
  | None => match s with
            | EmptyString => false
            | String _ s' => py_in sub s'
            end
  end.

(** [os.path.join(a, b)] of [posixpath]. *)
Fixpoint ends_with_slash (a : string) : bool :=
  match a with
  | EmptyString => false
  | String c EmptyString => Ascii.eqb c "/"%char
  | String _ a' => ends_with_slash a'
  end.

Definition path_join (a b : string) : string :=
  match b with
  | String "/"%char _ => b
  | _ => match a with
         | EmptyString => b
         | _ => if ends_with_slash a then a +:+ b else a +:+ "/" +:+ b
         end
  end.

(** The regular expressions of the script all have the shape
    [pre(group)post] with literal [pre] and [post]; the group is either a
    character class repeated with [+] or an alternation of literals. *)
Inductive group : Type :=
| Class (cls : ascii → bool)
| Alt (alts : list string).

Record pattern : Type := mk_pattern
  { pre : string;
    grp : group;
    post : string }.

(** [[cls]+post] at the head of [s]: the longest run first, shorter runs on
    backtracking; the run that is captured. *)
Fixpoint match_class (cls : ascii → bool) (post s : string) : option string :=
  match s with
  | EmptyString => None
  | String c s' =>
      if cls c then
        match match_class cls post s' with
        | Some g => Some (String c g)
        | None => match starts_with post s' with
                  | Some _ => Some (String c EmptyString)
                  | None => None
                  end
        end
      else None
  end.

(** [(a1|a2|...)post] at the head of [s]: the alternatives in order. *)
Fixpoint match_alt (alts : list string) (post s : string) : option string :=
  match alts with
  | [] => None
  | a :: alts' =>
      match starts_with a s with
      | Some rest => match starts_with post rest with
                     | Some _ => Some a
                     | None => match_alt alts' post s
                     end
      | None => match_alt alts' post s
      end
  end.

Definition match_at (p : pattern) (s : string) : option string :=
  match starts_with (pre p) s with
  | None => None
  | Some rest =>
      match grp p with
      | Class cls => match_class cls (post p) rest
      | Alt alts => match_alt alts (post p) rest
      end
  end.

(** [re.findall(p, s)[0]]: the group of the leftmost match; [None] stands
    for the [IndexError] of an empty list of matches. *)
Fixpoint findall_first (p : pattern) (s : string) : option string :=
  match match_at p s with
  | Some g => Some g
  | None => match s with
            | EmptyString => None
            | String _ s' => findall_first p s'
            end
  end.

Definition is_digit (c : ascii) : bool :=
  match Ascii.is_nat c with Some _ => true | None => false end.

(** [int(s)] on a string of decimal digits, as the pattern captures them;
    [None] stands for [ValueError]. *)
Fixpoint int_go (acc : Z) (s : string) : option Z :=
  match s with
  | EmptyString => Some acc
  | String c s' =>
      match Ascii.is_nat c with
      | Some d => int_go (10 * acc + Z.of_nat d) s'
      | None => None
      end
  end.

Definition py_int (s : string) : option Z :=
  match s with
  | EmptyString => None
  | _ => int_go 0 s
  end.

(** Lines 162, 182 and 290-291: the table class, or [ValueError]. *)
Inductive tables_class : Type := DOMTimePolarTables | CLSimTables.

Definition tables_class_of (code : string) : result tables_class :=
  if String.eqb code "dom_time_polar_tables" then Ok DOMTimePolarTables
  else if py_in "clsim_tables" code then Ok CLSimTables
  else Raise ValueError.

(** Lines 186-191. *)
Definition norm_version (code : string) : string :=
  match findall_first (mk_pattern "" (Alt ["pde"; "avgsurfarea"]) "norm") code with
  | Some g => g
  | None => "pde"
  end.

(** Lines 183 and 193-197. *)
Definition use_directionality (code : string) : bool :=
  negb (py_in "no_dir" code).

(** Lines 184, 193 and 204-207: the value inside the branch of line 182;
    [script_num_phi_samples] below adds the guards of lines 162-291. *)
Definition num_phi_samples (code : string) : Z :=
  if py_in "no_dir" code then 1
  else match findall_first (mk_pattern "" (Class is_digit) "phi") code with
       | Some g => match py_int g with Some n => n | None => 1 end
       | None => 1
       end%Z.

(** Lines 301-306. *)
Definition muon_kernel_label (code : string) : string :=
  if py_in "dedx" code then "table_energy_loss_muon"
  else "const_energy_loss_muon".

(** Lines 69-71. *)
Definition STEP_LENGTH : string := "1.0".
Definition ANGULAR_ACCEPTANCE_FRACT : string := "0.338019664877".
Definition MMAP : bool := true.

(** Lines 260-270. *)
Definition table_path (code string_ : string) (dom : Z) : string :=
  let depth_idx := (dom - 1)%Z in
  if py_in "orig" code then
    path_join "/fastio/justin/retro_tables/full1000_npy"
      ("full1000_" +:+ string_ +:+ pretty depth_idx)
  else
    path_join "/data/icecube/retro_tables/large_5d_notilt_combined"
      ("large_5d_notilt_string_" +:+ string_ +:+ "_depth_" +:+ pretty depth_idx).

(** An [OrderedDict] as the list of its items: assigning to a key that is
    present replaces the value in place, a new key goes to the end. *)
Fixpoint od_set {K A} `{EqDecision K} (k : K) (v : A) (d : list (K * A))
  : list (K * A) :=
  match d with
  | [] => [(k, v)]
  | (k', v') :: d' =>
      if decide (k' = k) then (k, v) :: d' else (k', v') :: od_set k v d'
  end.

(** The keyword arguments of one [load_table] call, and the record kept of
    it under [run_info['tables']]. *)
Record table_info : Type := mk_table_info
  { fpath : string;
    step_length : string;
    angular_acceptance_fract : string;
    mmap : bool }.

(** A value that is a string or an integer: the elements of the two pools
    of [product(('dc', 'ic'), doms)], and the [dom] of a load, which is a
    DOM number or the string ['all']. *)
Inductive cell : Type :=
| CStr (s : string)
| CInt (z : Z).

#[global] Instance cell_eq_dec : EqDecision cell.
Proof. solve_decision. Defined.

Record load_call : Type := mk_load_call
  { lc_string : string;
    lc_dom : cell;
    lc_info : table_info }.

(** The record of lines 281-286 and the call of lines 272-279. *)
Definition table_entry (code string_ : string) (dom : Z) : table_info :=
  mk_table_info (table_path code string_ dom) STEP_LENGTH
    ANGULAR_ACCEPTANCE_FRACT MMAP.

Definition load_of (code string_ : string) (dom : Z) : load_call :=
  mk_load_call string_ (CInt dom) (table_entry code string_ dom).

(** Lines 258-288, the loop of the branch that loads one table per DOM.
    [load_table fpath string dom] is the exception, if any, that loading
    that table raises. *)
Fixpoint load_tables_loop (code : string)
    (load_table : string → string → cell → option exn)
    (pairs : list (list cell))
    (loads : list load_call) (tables : list ((string * cell) * table_info))
  : list load_call * result (list ((string * cell) * table_info)) :=
  match pairs with
  | [] => (loads, Ok tables)
  | [CStr string_; CInt dom] :: rest =>
      let table_path := table_path code string_ dom in
      let loads := loads ++ [load_of code string_ dom] in
      match load_table table_path string_ (CInt dom) with
      | Some e => (loads, Raise e)
      | None =>
          load_tables_loop code load_table rest loads
            (od_set (string_, CInt dom) (table_entry code string_ dom) tables)
      end
  | _ :: rest => (loads, Raise ValueError)
  end.

Definition load_tables (code : string)
    (load_table : string → string → cell → option exn) (doms : list Z)
  : list load_call * result (list ((string * cell) * table_info)) :=
  load_tables_loop code load_table
    (product [[CStr "dc"; CStr "ic"]; map CInt doms]) [] [].

(** Lines 235-254: the one table for all DOMs. *)
Definition single_table_info : table_info :=
  mk_table_info
    "/fastio/justin/retro_tables/large_5d_notilt_string_dc_depth_0-59"
    STEP_LENGTH ANGULAR_ACCEPTANCE_FRACT MMAP.

(** Lines 162-291, as far as [load_table] and [run_info['tables']] go: the
    [load_table] calls the script makes, and the record it keeps under
    [run_info['tables']], [None] when it keeps none.  With
    [DOMTimePolarTables] the tables are loaded by the object's own
    [load_tables()] and nothing is recorded; a name of neither kind raises
    [ValueError] at line 291.  Instantiating the table object and writing
    the messages are taken to succeed. *)
Definition script_tables (code : string)
    (load_table : string → string → cell → option exn) (doms : list Z)
  : list load_call
    * result (option (list ((string * cell) * table_info))) :=
  if String.eqb code "dom_time_polar_tables" then ([], Ok None)
  else if py_in "clsim_tables" code then
    if py_in "single_table" code then
      let call := mk_load_call "all" (CStr "all") single_table_info in
      match load_table (fpath single_table_info) "all" (CStr "all") with
      | Some e => ([call], Raise e)
      | None => ([call], Ok (Some [(("all", CStr "all"), single_table_info)]))
      end
    else
      match load_tables code load_table doms with
      | (loads, Ok tables) => (loads, Ok (Some tables))
      | (loads, Raise e) => (loads, Raise e)
      end
  else ([], Raise ValueError).

(** Lines 162-291, as far as [num_phi_samples] goes: the value the script
    binds, [None] when it binds none ([DOMTimePolarTables]), [ValueError]
    for a name of neither kind. *)
Definition script_num_phi_samples (code : string) : result (option Z) :=
  if String.eqb code "dom_time_polar_tables" then Ok None
  else if py_in "clsim_tables" code then Ok (Some (num_phi_samples code))
  else Raise ValueError.

(** The number announced on line 257. *)
Definition announced_tables (doms : list Z) : nat := 2 * length doms.

(** A loader that never fails, and the [doms] of line 134. *)
Definition loads_fine : string → string → cell → option exn :=
  fun _ _ _ => None.

Definition doms_25_60 : list Z := map (fun i => Z.of_nat (25 + i)) (seq 0 36).

(** Every character of a string satisfies a test. *)
Fixpoint string_forall (f : ascii → bool) (s : string) : bool :=
  match s with
  | EmptyString => true
  | String c s' => f c && string_forall f s'
  end.

(** Lines 427-436: the name of the plot of one DOM.  [retro_positive] and
    [clsim_positive] are the outcomes of the tests [tot_retro > 0] and
    [tot_clsim > 0]. *)
Definition plot_fname (sim code : string) (string_ dom : Z)
    (retro_positive clsim_positive : bool) : string :=
  let clsim_code := if clsim_positive then "c" else "" in
  let retro_code := if retro_positive then "r" else "" in
  "sim_" +:+ sim +:+ "_code_" +:+ code +:+ "_" +:+ pretty string_ +:+ "_"
  +:+ pretty dom +:+ "_" +:+ retro_code +:+ "_" +:+ clsim_code.

(** * Properties *)

(** ** The Cartesian product *)

Lemma flat_map_singleton {A} (l : list (list A)) :
  flat_map (fun x => [x ++ []]) l = l.
Proof.
  induction l as [|x l IH]; simpl; [done|].
  by rewrite app_nil_r, IH.
Qed.

Lemma flat_map_flat_map {A B C} (f : A → list B) (g : B → list C) l :
  flat_map g (flat_map f l) = flat_map (fun x => flat_map g (f x)) l.
Proof.
  induction l as [|x l IH]; simpl; [done|].
  by rewrite flat_map_app, IH.
Qed.

Lemma flat_map_fmap {A B C} (f : A → B) (g : B → list C) l :
  flat_map g (map f l) = flat_map (fun x => g (f x)) l.
Proof. induction l as [|x l IH]; simpl; [done|]. by rewrite IH. Qed.

Lemma fmap_flat_map {A B C} (f : A → list B) (g : B → C) l :
  map g (flat_map f l) = flat_map (fun x => map g (f x)) l.
Proof.
  induction l as [|x l IH]; simpl; [done|].
  by rewrite map_app, IH.
Qed.

Lemma flat_map_const_length {A B} (f : A → list B) l m :
  (∀ x, length (f x) = m) → length (flat_map f l) = length l * m.
Proof.
  intros Hf. induction l as [|x l IH]; simpl; [done|].
  rewrite length_app, Hf, IH. lia.
Qed.

(** Block [i] of a [flat_map] with blocks of equal length [m] starts at
    position [i * m]. *)
Lemma flat_map_lookup {A B} (f : A → list B) l m i j x :
  (∀ y, length (f y) = m) →
  l !! i = Some x → j < m →
  flat_map f l !! (i * m + j) = f x !! j.
Proof.
  intros Hf. revert i. induction l as [|y l IH]; intros i Hi Hj; [done|].
  destruct i as [|i]; simpl in *.
  - injection Hi as ->. apply lookup_app_l. by rewrite Hf.
  - rewrite lookup_app_r by (rewrite Hf; lia).
    rewrite Hf. replace (m + i * m + j - m) with (i * m + j) by lia.
    by apply IH.
Qed.

Section Product.
Context {A : Type}.
Implicit Types (pool : list A) (pools : list (list A)).

(** The accumulator of [product] holds the prefixes built so far; what
    remains is to append every tuple of the remaining pools. *)
Lemma product_fold pools (acc : list (list A)) :
  fold_left product_step pools acc
  = flat_map (fun x => map (app x) (nested_loops pools)) acc.
Proof.
  revert acc. induction pools as [|pool pools IH]; intros acc; simpl.
  - by rewrite flat_map_singleton.
  - rewrite IH. unfold product_step. rewrite flat_map_flat_map.
    apply flat_map_ext. intros x.
    rewrite flat_map_fmap, fmap_flat_map.
    apply flat_map_ext. intros y.
    rewrite map_map. apply map_ext. intros p.
    by rewrite <- app_assoc.
Qed.

Lemma product_nested_loops pools : product pools = nested_loops pools.
Proof.
  unfold product. rewrite product_fold. simpl.
  rewrite app_nil_r. apply map_id.
Qed.

Lemma nested_loops_length pools :
  length (nested_loops pools) = list_prod (map length pools).
Proof.
  induction pools as [|pool pools IH]; simpl; [done|].
  rewrite (flat_map_const_length _ _ (length (nested_loops pools))).
  - by rewrite IH.
  - intros x. apply length_map.
Qed.

Lemma product_length pools :
  length (product pools) = list_prod (map length pools).
Proof. rewrite product_nested_loops. apply nested_loops_length. Qed.

Lemma nested_loops_empty_pool pools :
  Exists (fun pool => pool = []) pools → nested_loops pools = [].
Proof.
  induction 1 as [pool pools ->|pool pools _ IH]; simpl; [done|].
  rewrite IH. clear. by induction pool.
Qed.
End Product.

Lemma ravel_lt shape idx : in_range shape idx → ravel shape idx < list_prod shape.
Proof.
  unfold in_range. intros H. induction H as [|i n idx shape Hin _ IH]; simpl.
  - lia.
  - apply Nat.lt_le_trans with (S i * list_prod shape); [simpl; lia|].
    apply Nat.mul_le_mono_r. lia.
Qed.

(** The point at row-major position [ravel shape idx] takes, on every axis,
    the value that [idx] selects there. *)
Lemma nested_loops_ravel (pools : list (list pyval)) idx :
  in_range (map length pools) idx →
  nested_loops pools !! ravel (map length pools) idx = point_at pools idx.
Proof.
  unfold in_range. revert idx.
  induction pools as [|pool pools IH]; intros idx H; simpl in *.
  - by inversion H.
  - inversion H as [|i n idx' shape' Hi Hrest]; subst. simpl.
    destruct (lookup_lt_is_Some_2 pool i Hi) as [x Hx].
    rewrite <- nested_loops_length.
    rewrite (flat_map_lookup _ _ (length (nested_loops pools)) i _ x); try done.
    + rewrite Hx. simpl. rewrite list_lookup_fmap, (IH _ Hrest).
      by destruct (point_at pools idx').
    + intros y. apply length_map.
    + rewrite nested_loops_length. by apply ravel_lt.
Qed.

(** Reading an array with a full buffer in row-major index order gives the
    buffer back. *)
Lemma ravel_ndindex shape :
  map (ravel shape) (ndindex shape) = seq 0 (list_prod shape).
Proof.
  unfold ndindex. induction shape as [|n shape IH]; simpl; [done|].
  rewrite fmap_flat_map.
  transitivity (flat_map (fun i => map (Nat.add (i * list_prod shape))
                                    (seq 0 (list_prod shape))) (seq 0 n)).
  { apply flat_map_ext. intros i. rewrite map_map, <- IH, map_map. done. }
  generalize (list_prod shape) as m. intros m. clear.
  assert (∀ k, flat_map (fun i => map (Nat.add (i * m)) (seq 0 m)) (seq k n)
               = seq (k * m) (n * m)) as H; [|apply (H 0)].
  induction n as [|n IH]; intros k; simpl; [done|].
  rewrite IH, seq_app. f_equal.
  - change (map (Nat.add (k * m)) (seq 0 m)) with (Nat.add (k * m) <$> seq 0 m).
    rewrite fmap_add_seq. f_equal. lia.
  - f_equal. lia.
Qed.

(** ** Normalisation of the axis specification *)

Lemma to_sequence_axis sv : is_axis sv = true → to_sequence sv = Ok (materialize sv).
Proof. by destruct sv. Qed.

Lemma to_sequences_axes svs :
  forallb is_axis svs = true → to_sequences svs = Ok (map materialize svs).
Proof.
  induction svs as [|sv svs IH]; simpl; [done|].
  intros [Hsv Hsvs]%andb_prop.
  by rewrite (to_sequence_axis _ Hsv), (IH Hsvs).
Qed.

Lemma spec_axes_wrapped first rest :
  np_isscalar first = false → spec_axes (PSeq (first :: rest)) = first :: rest.
Proof. by destruct first. Qed.

Lemma spec_axes_bare c first rest :
  items c = first :: rest → np_isscalar first = true → spec_axes c = [c].
Proof. unfold spec_axes. intros ->. by destruct first. Qed.

Lemma normalize_valid specs :
  valid_spec specs = true → normalize specs = Ok (grid specs).
Proof.
  unfold valid_spec, grid, spec_axes, normalize.
  intros [[Hc Hne]%andb_prop Hax]%andb_prop.
  destruct specs as [|l|l| |]; try done;
    (destruct l as [|x l]; [done|]); simpl in *;
    destruct x; simpl in *; try done;
    by rewrite (to_sequences_axes _ Hax).
Qed.

(** ** Array assembly *)

Section Assembly.
Context {V F : Type} (dt : dtype V F).

Lemma np_array_length vals buf :
  np_array dt vals = Ok buf → length buf = length vals.
Proof.
  revert buf. induction vals as [|v vals IH]; simpl; intros buf H.
  - by injection H as <-.
  - destruct (dt v) as [x|]; simpl in H; [|done].
    destruct (np_array dt vals) as [xs|]; simpl in H; [|done].
    injection H as <-. simpl. by rewrite (IH xs).
Qed.

Lemma np_array_ok vals :
  forallb (fun v => is_ok (dt v)) vals = true →
  ∃ buf, np_array dt vals = Ok buf ∧ Forall2 (fun v x => dt v = Ok x) vals buf.
Proof.
  induction vals as [|v vals IH]; simpl.
  - intros _. exists []. by split.
  - intros [Hv Hvals]%andb_prop. destruct (IH Hvals) as (xs & -> & Hxs).
    destruct (dt v) as [x|] eqn:Hx; [|done].
    exists (x :: xs). split; [done|]. by constructor.
Qed.

Lemma reshape_full (buf : list F) shape :
  list_prod shape = length buf → reshape buf shape = Ok (mk_ndarray shape buf).
Proof. intros H. unfold reshape. by rewrite H, Nat.eqb_refl. Qed.

Lemma nd_flatten_full (buf : list F) shape :
  list_prod shape = length buf →
  nd_flatten (mk_ndarray shape buf) = map Some buf.
Proof.
  intros H. unfold nd_flatten, nd_get. simpl.
  rewrite <- (map_map (ravel shape) (fun i => buf !! i)), ravel_ndindex, H.
  clear. induction buf as [|x buf IH] using rev_ind; [done|].
  rewrite length_app, Nat.add_1_r, seq_S, !map_app. simpl. f_equal.
  - rewrite <- IH. apply map_ext_in. intros i [_ Hi]%in_seq.
    by rewrite lookup_app_l.
  - by rewrite list_lookup_middle.
Qed.
End Assembly.

(** ** The loop *)

Lemma enumerate_from_app {A} n (l1 l2 : list A) :
  enumerate_from n (l1 ++ l2)
  = enumerate_from n l1 ++ enumerate_from (n + length l1) l2.
Proof.
  revert n. induction l1 as [|x l1 IH]; intros n; simpl.
  - by rewrite Nat.add_0_r.
  - rewrite IH. do 3 f_equal. lia.
Qed.

Lemma console_works_spec console total :
  console_works console total = true ↔
  ∀ n, n < total → report_due n = true → console n = None.
Proof.
  unfold console_works. rewrite forallb_forall. split.
  - intros H n Hn Hdue.
    assert (In n (seq 0 total)) as Hin by (apply in_seq; lia).
    specialize (H n Hin). rewrite Hdue in H. simpl in H.
    by apply bool_decide_eq_true in H.
  - intros H n [_ Hn]%in_seq. destruct (report_due n) eqn:Hdue; [|done].
    simpl. apply bool_decide_eq_true. apply H; [lia|done].
Qed.

Section Loop.
Context {V : Type}.
Variable names : list string.
Variable metric : gmap string pyval → result V.
Variable console : nat → option exn.

Lemma scan_loop_app l1 l2 tr vals :
  scan_loop names metric console (l1 ++ l2) tr vals
  = match scan_loop names metric console l1 tr vals with
    | (tr', Ok vals') => scan_loop names metric console l2 tr' vals'
    | (tr', Raise e) => (tr', Raise e)
    end.
Proof.
  revert tr vals. induction l1 as [|[n p] l1 IH]; intros tr vals; simpl.
  - done.
  - fold (point_mapping names p). destruct (metric (point_mapping names p)); [|done].
    destruct (report_due n); [destruct (console n)|]; by rewrite ?IH.
Qed.

(** While the metric returns and the console accepts the lines that are
    due, the scan_loop names metric console logs every call and keeps every value. *)
Lemma scan_loop_clean n0 pts tr vals :
  metric_returns names metric pts = true →
  (∀ n, n0 ≤ n < n0 + length pts → report_due n = true → console n = None) →
  ∃ vs, Forall2 (fun p v => metric (point_mapping names p) = Ok v) pts vs ∧
    scan_loop names metric console (enumerate_from n0 pts) tr vals
    = (mk_trace (calls tr ++ map (point_mapping names) pts)
         (reports tr
          ++ filter (fun n => report_due n = true) (seq n0 (length pts))),
       Ok (vals ++ vs)).
Proof.
  revert n0 tr vals.
  induction pts as [|p pts IH]; intros n0 tr vals Hm Hc; simpl in *.
  - exists []. split; [constructor|]. destruct tr. by rewrite !app_nil_r.
  - apply andb_prop in Hm as [Hp Hm]. fold (point_mapping names p).
    destruct (metric (point_mapping names p)) as [v|] eqn:Hv; [|done].
    assert (∀ n, S n0 ≤ n < S n0 + length pts →
                 report_due n = true → console n = None) as Hc'
        by (intros n ?; apply Hc; lia).
    rewrite filter_cons. destruct (report_due n0) eqn:Hdue.
    + rewrite (Hc n0) by (done || lia).
      destruct (IH (S n0) (mk_trace (calls tr ++ [point_mapping names p])
                                    (reports tr ++ [n0]))
                  (vals ++ [v]) Hm Hc') as (vs & Hvs & ->).
      exists (v :: vs). split; [by constructor|]. simpl.
      by rewrite <- !app_assoc.
    + destruct (IH (S n0) (mk_trace (calls tr ++ [point_mapping names p]) (reports tr))
                  (vals ++ [v]) Hm Hc') as (vs & Hvs & ->).
      exists (v :: vs). split; [by constructor|]. simpl.
      by rewrite <- !app_assoc.
Qed.
End Loop.

(** ** Whole scans *)

Section Run.
Context {V F : Type}.
Variable FTYPE : dtype V F.
Variable names : list string.
Variable metric : gmap string pyval → result V.

Lemma returned_values_convert pts vals :
  Forall2 (fun p v => metric (point_mapping names p) = Ok v) pts vals →
  results_convert FTYPE names metric pts
  = forallb (fun v => is_ok (FTYPE v)) vals.
Proof.
  induction 1 as [|p v pts vals Hv _ IH]; simpl; [done|].
  by rewrite Hv, IH.
Qed.

(** With a metric that returns everywhere and a working console, every
    point is evaluated, and only the conversion decides the outcome. *)
Lemma scan_all_calls console specs :
  valid_spec specs = true →
  metric_returns names metric (nested_loops (grid specs)) = true →
  console_works console (length (nested_loops (grid specs))) = true →
  ∃ vals,
    Forall2 (fun p v => metric (point_mapping names p) = Ok v)
      (nested_loops (grid specs)) vals ∧
    scan FTYPE names metric console specs
    = (mk_trace (map (point_mapping names) (nested_loops (grid specs)))
         (reports_upto (length (nested_loops (grid specs)))),
       buf ← np_array FTYPE vals;
       Ok (mk_ndarray (map length (grid specs)) buf)).
Proof.
  intros Hvalid Hm Hc. unfold scan.
  rewrite (normalize_valid _ Hvalid), product_nested_loops. unfold enumerate.
  destruct (scan_loop_clean names metric console 0 _ (mk_trace [] []) [] Hm)
    as (vals & Hvals & ->).
  { intros n [_ Hn]. by apply (proj1 (console_works_spec _ _) Hc). }
  exists vals. split; [done|]. simpl. f_equal.
  destruct (np_array FTYPE vals) as [buf|] eqn:Hbuf; simpl; [|done].
  apply reshape_full.
  rewrite (np_array_length _ _ _ Hbuf), <- (Forall2_length _ _ _ Hvals).
  symmetry. apply nested_loops_length.
Qed.

Lemma scan_clean_run console specs :
  valid_spec specs = true →
  metric_returns names metric (nested_loops (grid specs)) = true →
  results_convert FTYPE names metric (nested_loops (grid specs)) = true →
  console_works console (length (nested_loops (grid specs))) = true →
  ∃ buf,
    Forall2 (result_at FTYPE names metric) (nested_loops (grid specs)) buf ∧
    scan FTYPE names metric console specs
    = (mk_trace (map (point_mapping names) (nested_loops (grid specs)))
         (reports_upto (length (nested_loops (grid specs)))),
       Ok (mk_ndarray (map length (grid specs)) buf)).
Proof.
  intros Hvalid Hm Hr Hc.
  destruct (scan_all_calls console specs Hvalid Hm Hc) as (vals & Hvals & ->).
  destruct (np_array_ok FTYPE vals) as (buf & -> & Hbuf).
  { by rewrite <- (returned_values_convert _ _ Hvals). }
  exists buf. split; [|done].
  clear -Hvals Hbuf. revert buf Hbuf.
  induction Hvals as [|p v pts vals Hv _ IH]; intros buf Hbuf;
    inversion Hbuf; subst; constructor.
  - by exists v.
  - by apply IH.
Qed.

(** The loop stops at the first point where the metric raises or a due
    progress line cannot be written. *)
Lemma scan_stops_at console specs k p e :
  valid_spec specs = true →
  nested_loops (grid specs) !! k = Some p →
  metric_returns names metric (take k (nested_loops (grid specs))) = true →
  console_works console k = true →
  match metric (point_mapping names p) with
  | Raise e' => e' = e
  | Ok _ => report_due k = true ∧ console k = Some e
  end →
  scan FTYPE names metric console specs
  = (mk_trace (map (point_mapping names)
                 (take (S k) (nested_loops (grid specs))))
       (reports_upto k),
     Raise e).
Proof.
  intros Hvalid Hk Hm Hc Hstop. unfold scan.
  rewrite (normalize_valid _ Hvalid), product_nested_loops. unfold enumerate.
  pose proof (lookup_lt_Some _ _ _ Hk) as Hlt.
  rewrite <- (take_drop_middle _ _ _ Hk) at 1.
  rewrite enumerate_from_app, scan_loop_app.
  destruct (scan_loop_clean names metric console 0 _ (mk_trace [] []) [] Hm)
    as (vals & Hvals & ->).
  { intros n [_ Hn]. apply (proj1 (console_works_spec _ _) Hc).
    rewrite length_take in Hn. lia. }
  rewrite length_take, Nat.min_l by lia. simpl.
  rewrite (take_S_r _ _ _ Hk), map_app. simpl.
  fold (point_mapping names p). unfold reports_upto.
  destruct (metric (point_mapping names p)) as [v|e'].
  - destruct Hstop as [-> ->]. done.
  - by subst.
Qed.

(** Two consoles that both accept the lines that are due cannot be told
    apart by the scan. *)
Lemma scan_loop_console_ext console console' pts n0 tr vals :
  (∀ n, n0 ≤ n < n0 + length pts → report_due n = true →
        console n = console' n) →
  scan_loop names metric console (enumerate_from n0 pts) tr vals
  = scan_loop names metric console' (enumerate_from n0 pts) tr vals.
Proof.
  revert n0 tr vals.
  induction pts as [|p pts IH]; intros n0 tr vals H; simpl in *; [done|].
  destruct (metric _); [|done].
  assert (∀ n, S n0 ≤ n < S n0 + length pts → report_due n = true →
               console n = console' n) by (intros n ?; apply H; lia).
  destruct (report_due n0) eqn:Hdue; [|by apply IH].
  rewrite <- (H n0) by (done || lia).
  destruct (console n0); [done|]. by apply IH.
Qed.
End Run.

(** ** The mapping handed to the metric *)

Lemma py_dict_snoc kvs kv : py_dict (kvs ++ [kv]) = <[kv.1 := kv.2]> (py_dict kvs).
Proof. unfold py_dict. by rewrite fold_left_app. Qed.

Lemma py_dict_lookup kvs k v :
  py_dict kvs !! k = Some v ↔
  ∃ i, kvs !! i = Some (k, v) ∧
       ∀ j kv, i < j → kvs !! j = Some kv → kv.1 ≠ k.
Proof.
  revert v. induction kvs as [|[k' v'] kvs IH] using rev_ind; intros v.
  { split; [done|]. by intros (i & Hi & _). }
  rewrite py_dict_snoc. simpl. destruct (decide (k' = k)) as [->|Hne].
  - rewrite lookup_insert_eq. split.
    + intros [= ->]. exists (length kvs). split; [by rewrite list_lookup_middle|].
      intros j kv Hj Hkv. apply lookup_lt_Some in Hkv.
      rewrite length_app in Hkv. simpl in Hkv. lia.
    + intros (i & Hi & Hlast).
      destruct (decide (i = length kvs)) as [->|Hi'].
      * rewrite list_lookup_middle in Hi by done. by injection Hi as ->.
      * pose proof (lookup_lt_Some _ _ _ Hi) as Hlt.
        rewrite length_app in Hlt. simpl in Hlt.
        destruct (Hlast (length kvs) (k, v')); [lia| |done].
        by rewrite list_lookup_middle.
  - rewrite lookup_insert_ne by done. rewrite IH. split.
    + intros (i & Hi & Hlast). exists i.
      pose proof (lookup_lt_Some _ _ _ Hi) as Hlt.
      split; [by rewrite lookup_app_l|].
      intros j kv Hj Hkv. destruct (decide (j < length kvs)) as [Hj'|Hj'].
      * rewrite lookup_app_l in Hkv by done. by eapply Hlast.
      * pose proof (lookup_lt_Some _ _ _ Hkv) as Hlt'.
        rewrite length_app in Hlt'. simpl in Hlt'.
        replace j with (length kvs) in Hkv by lia.
        rewrite list_lookup_middle in Hkv by done. by injection Hkv as <-.
    + intros (i & Hi & Hlast).
      pose proof (lookup_lt_Some _ _ _ Hi) as Hlt.
      rewrite length_app in Hlt. simpl in Hlt.
      destruct (decide (i = length kvs)) as [->|Hi'].
      { rewrite list_lookup_middle in Hi by done. by injection Hi as ->. }
      exists i. rewrite lookup_app_l in Hi by lia. split; [done|].
      intros j kv Hj Hkv. apply (Hlast j kv Hj).
      rewrite lookup_app_l; [done|]. by eapply lookup_lt_Some.
Qed.

(** [dict(zip(names, point))] binds a name to the value at the last
    position, within the shorter of the two lists, where the name occurs. *)
Lemma point_mapping_lookup names point k v :
  point_mapping names point !! k = Some v ↔
  ∃ i, names !! i = Some k ∧ point !! i = Some v ∧
       ∀ j, i < j → j < length point → names !! j ≠ Some k.
Proof.
  unfold point_mapping. rewrite py_dict_lookup. unfold zip. split.
  - intros (i & Hi & Hlast).
    apply lookup_zip_with_Some in Hi as (k0 & v0 & [= <- <-] & Hn & Hp).
    exists i. do 2 (split; [done|]). intros j Hj Hlen Hname.
    destruct (lookup_lt_is_Some_2 point j Hlen) as [w Hw].
    apply (Hlast j (k, w) Hj); [|done].
    apply lookup_zip_with_Some. by exists k, w.
  - intros (i & Hn & Hp & Hlast). exists i. split.
    + apply lookup_zip_with_Some. by exists k, v.
    + intros j [k0 w] Hj Hkv. simpl. intros ->.
      apply lookup_zip_with_Some in Hkv as (k1 & w1 & [= <- <-] & Hn' & Hp').
      apply (Hlast j Hj); [|done]. by eapply lookup_lt_Some.
Qed.

(** ** Float conversion of integers *)

Lemma round_sig_exact p z : (0 < p)%Z → (Z.abs z < 2 ^ p)%Z → round_sig p z = z.
Proof.
  intros Hp Hz. unfold round_sig.
  destruct (Z.leb_spec (Z.log2 (Z.abs z) + 1 - p) 0) as [|He]; [done|].
  exfalso. destruct (Z.eq_dec (Z.abs z) 0%Z) as [H0|H0].
  - rewrite H0 in He. simpl in He. lia.
  - assert (Z.log2 (Z.abs z) < p)%Z; [|lia].
    apply Z.log2_lt_pow2; lia.
Qed.

Lemma np_array_raises {V F} (dt : dtype V F) vals :
  forallb (fun v => is_ok (dt v)) vals = false →
  ∃ v e, In v vals ∧ dt v = Raise e ∧ np_array dt vals = Raise e.
Proof.
  induction vals as [|v vals IH]; simpl; [done|].
  destruct (dt v) as [x|e] eqn:Hv; simpl.
  - intros (w & e & Hin & Hw & ->)%IH. exists w, e. auto.
  - intros _. exists v, e. auto.
Qed.

(** ** Shape, order and the worked example *)

(** C1: for every valid axis specification on which the metric returns
    convertible values, [scan] returns an array whose shape is the ordered
    tuple of the materialised per-axis lengths, axis [i] of the
    specification giving dimension [i]; the buffer has exactly the number of
    elements that shape calls for. *)
Theorem scan_shape {V F} (FTYPE : dtype V F) names metric console specs :
  valid_spec specs = true →
  metric_returns names metric (nested_loops (grid specs)) = true →
  results_convert FTYPE names metric (nested_loops (grid specs)) = true →
  console_works console (length (nested_loops (grid specs))) = true →
  ∃ tr a,
    scan FTYPE names metric console specs = (tr, Ok a) ∧
    shape a = map (fun axis => length (materialize axis)) (spec_axes specs) ∧
    (∀ i axis, spec_axes specs !! i = Some axis →
               shape a !! i = Some (length (materialize axis))) ∧
    length (data a) = list_prod (shape a).
Proof.
  intros Hvalid Hm Hr Hc.
  destruct (scan_clean_run FTYPE names metric console specs Hvalid Hm Hr Hc)
    as (buf & Hbuf & ->).
  eexists _, _. split; [done|]. simpl. unfold grid. rewrite map_map.
  split; [done|]. split.
  - intros i axis Hi.
    change (map ?f ?l) with (f <$> l). by rewrite list_lookup_fmap, Hi.
  - rewrite <- (Forall2_length _ _ _ Hbuf), nested_loops_length.
    unfold grid. by rewrite map_map.
Qed.

Lemma scan_shape_witness :
  ∃ tr a,
    scan (float_dtype Float32) ["a"; "b"] metric_a100b quiet example_axes
    = (tr, Ok a) ∧
    shape a = [2; 3] ∧
    (∀ i axis, spec_axes example_axes !! i = Some axis →
               shape a !! i = Some (length (materialize axis))) ∧
    length (data a) = list_prod (shape a).
Proof.
  apply (scan_shape (float_dtype Float32) ["a"; "b"] metric_a100b quiet
           example_axes); vm_compute; reflexivity.
Defined.

(** C2: the metric is invoked on the points of the Cartesian product in
    nested-loop order, first axis outermost and last axis fastest; the array
    read out in row-major order lists the results in that same order, and
    the element at multi-index [idx] is the result of the call made at
    position [ravel shape idx], whose point takes on each axis the value
    that [idx] selects. *)
Theorem scan_row_major {V F} (FTYPE : dtype V F) names metric console specs :
  valid_spec specs = true →
  metric_returns names metric (nested_loops (grid specs)) = true →
  results_convert FTYPE names metric (nested_loops (grid specs)) = true →
  console_works console (length (nested_loops (grid specs))) = true →
  ∃ tr a,
    scan FTYPE names metric console specs = (tr, Ok a) ∧
    calls tr = map (point_mapping names) (nested_loops (grid specs)) ∧
    nd_flatten a = map Some (data a) ∧
    Forall2 (result_at FTYPE names metric) (nested_loops (grid specs)) (data a) ∧
    ∀ idx, in_range (shape a) idx →
      ∃ p x, point_at (grid specs) idx = Some p ∧
             calls tr !! ravel (shape a) idx = Some (point_mapping names p) ∧
             nd_get a idx = Some x ∧
             result_at FTYPE names metric p x.
Proof.
  intros Hvalid Hm Hr Hc.
  destruct (scan_clean_run FTYPE names metric console specs Hvalid Hm Hr Hc)
    as (buf & Hbuf & ->).
  eexists _, _. split; [done|]. simpl. split; [done|].
  assert (list_prod (map length (grid specs)) = length buf) as Hlen.
  { by rewrite <- (Forall2_length _ _ _ Hbuf), nested_loops_length. }
  split; [by apply nd_flatten_full|]. split; [done|].
  intros idx Hidx. unfold nd_get. simpl.
  pose proof (nested_loops_ravel (grid specs) idx Hidx) as Hpt.
  pose proof (ravel_lt _ _ Hidx) as Hlt.
  rewrite <- nested_loops_length in Hlt.
  destruct (lookup_lt_is_Some_2 _ _ Hlt) as [p Hp].
  destruct (Forall2_lookup_l _ _ _ _ _ Hbuf Hp) as (x & Hx & Hres).
  exists p, x. split; [congruence|]. split; [|done].
  change (map (point_mapping names) ?l) with (point_mapping names <$> l).
  by rewrite list_lookup_fmap, Hp.
Qed.

Lemma scan_row_major_witness :
  ∃ tr a,
    scan (float_dtype Float64) ["a"; "b"] metric_a100b quiet example_axes
    = (tr, Ok a) ∧
    calls tr = map (point_mapping ["a"; "b"]) (nested_loops (grid example_axes)) ∧
    nd_flatten a = map Some (data a) ∧
    Forall2 (result_at (float_dtype Float64) ["a"; "b"] metric_a100b)
      (nested_loops (grid example_axes)) (data a) ∧
    ∀ idx, in_range (shape a) idx →
      ∃ p x, point_at (grid example_axes) idx = Some p ∧
             calls tr !! ravel (shape a) idx
             = Some (point_mapping ["a"; "b"] p) ∧
             nd_get a idx = Some x ∧
             result_at (float_dtype Float64) ["a"; "b"] metric_a100b p x.
Proof.
  apply (scan_row_major (float_dtype Float64) ["a"; "b"] metric_a100b quiet
           example_axes); vm_compute; reflexivity.
Defined.

(** C3: on the axes [a = 1, 2] and [b = 10, 20, 30] with the metric
    [value_a * 100 + value_b], [scan] returns the 2 by 3 array
    [[110, 120, 130], [210, 220, 230]] after exactly six invocations, on
    (1,10), (1,20), (1,30), (2,10), (2,20), (2,30) in this order; this holds
    for either float width and any console. *)
Theorem scan_example (t : ftype) (console : nat → option exn) :
  scan (float_dtype t) ["a"; "b"] metric_a100b console example_axes
  = (mk_trace
       [ {["a" := PNum 1; "b" := PNum 10]}; {["a" := PNum 1; "b" := PNum 20]};
         {["a" := PNum 1; "b" := PNum 30]}; {["a" := PNum 2; "b" := PNum 10]};
         {["a" := PNum 2; "b" := PNum 20]}; {["a" := PNum 2; "b" := PNum 30]} ]
       [],
     Ok (mk_ndarray [2; 3]
           [Finite 110; Finite 120; Finite 130;
            Finite 210; Finite 220; Finite 230])).
Proof. destruct t; vm_compute; reflexivity. Qed.

(** ** Failures *)

(** C4: when the metric raises [e] on point [k] of the enumeration, having
    returned on the points before it, [scan] raises that same [e]; the
    metric has then been invoked on the points [0 .. k] and on no later
    point, and no array is produced. *)
Theorem scan_metric_raises {V F} (FTYPE : dtype V F) names metric console
    specs k p e :
  valid_spec specs = true →
  nested_loops (grid specs) !! k = Some p →
  metric (point_mapping names p) = Raise e →
  metric_returns names metric (take k (nested_loops (grid specs))) = true →
  console_works console k = true →
  ∃ tr,
    scan FTYPE names metric console specs = (tr, Raise e) ∧
    calls tr = map (point_mapping names) (take (S k) (nested_loops (grid specs))) ∧
    length (calls tr) = S k.
Proof.
  intros Hvalid Hk He Hm Hc.
  rewrite (scan_stops_at FTYPE names metric console specs k p e)
    by (done || by rewrite He).
  eexists. split; [done|]. simpl. split; [done|].
  rewrite length_map, length_take. apply lookup_lt_Some in Hk. lia.
Qed.

Lemma scan_metric_raises_witness :
  ∃ tr,
    scan (float_dtype Float32) ["a"; "b"] (metric_b_except 30 (OtherError 7))
      quiet example_axes = (tr, Raise (OtherError 7)) ∧
    calls tr = map (point_mapping ["a"; "b"])
                 (take 3 (nested_loops (grid example_axes))) ∧
    length (calls tr) = 3.
Proof.
  apply (scan_metric_raises (float_dtype Float32) ["a"; "b"]
           (metric_b_except 30 (OtherError 7)) quiet example_axes 2
           (nums [1; 30]%Z) (OtherError 7)); vm_compute; reflexivity.
Defined.

(** C5 fails on the code, which has no check on the axis lengths: a single
    empty axis is scanned "successfully". *)
Lemma scan_empty_axis_counterexample :
  scan (float_dtype Float64) ["a"] metric_a quiet (PSeq [PSeq []])
  = (mk_trace [] [], Ok (mk_ndarray [0] [])) ∧
  ¬ rejected (scan (float_dtype Float64) ["a"] metric_a quiet (PSeq [PSeq []])).
Proof.
  split; [vm_compute; reflexivity|].
  intros [_ [e He]]. vm_compute in He. discriminate.
Qed.

(** C5, as the code has it: when some axis of a valid specification has no
    values, [scan] makes no metric invocation and returns, without error,
    the array of no elements whose shape is the tuple of per-axis
    lengths. *)
Theorem scan_empty_axis {V F} (FTYPE : dtype V F) names metric console specs :
  valid_spec specs = true →
  existsb (fun axis => length (materialize axis) =? 0) (spec_axes specs) = true →
  scan FTYPE names metric console specs
  = (mk_trace [] [],
     Ok (mk_ndarray
           (map (fun axis => length (materialize axis)) (spec_axes specs)) [])).
Proof.
  intros Hvalid Hex.
  assert (nested_loops (grid specs) = []) as Hnone.
  { apply nested_loops_empty_pool. unfold grid. apply List.Exists_exists.
    apply existsb_exists in Hex as (axis & Hin & Hlen).
    exists (materialize axis). split; [by apply in_map|].
    apply Nat.eqb_eq in Hlen. by destruct (materialize axis). }
  destruct (scan_clean_run FTYPE names metric console specs Hvalid)
    as (buf & Hbuf & ->); try by rewrite Hnone.
  rewrite Hnone in *. inversion Hbuf; subst.
  unfold grid. by rewrite map_map.
Qed.

Lemma scan_empty_axis_witness :
  scan (float_dtype Float64) ["a"; "b"] metric_a100b quiet
    (PSeq [PSeq (nums [1; 2]%Z); PArr []])
  = (mk_trace [] [], Ok (mk_ndarray [2; 0] [])).
Proof.
  apply (scan_empty_axis (float_dtype Float64) ["a"; "b"] metric_a100b quiet
           (PSeq [PSeq (nums [1; 2]%Z); PArr []])); reflexivity.
Defined.

(** C10: on a specification with no elements at all, taking the first
    element raises [StopIteration]; nothing has been invoked and no array
    is returned. *)
Theorem scan_empty_spec {V F} (FTYPE : dtype V F) names metric console :
  scan FTYPE names metric console (PSeq []) = (mk_trace [] [], Raise StopIteration) ∧
  scan FTYPE names metric console (PArr []) = (mk_trace [] [], Raise StopIteration) ∧
  scan FTYPE names metric console (PGen []) = (mk_trace [] [], Raise StopIteration).
Proof. done. Qed.

(** ** The single-axis shorthand *)

(** C6: a non-empty collection of scalars passed bare is recognised by its
    scalar first element and becomes the one axis of the scan; the scan
    then is, in trace and in result, the scan of the same collection
    wrapped as a one-element list of axes. *)
Theorem scan_bare_axis {V F} (FTYPE : dtype V F) names metric console c :
  is_collection c = true →
  items c ≠ [] →
  forallb np_isscalar (items c) = true →
  normalize c = Ok [items c] ∧
  scan FTYPE names metric console c
  = scan FTYPE names metric console (PSeq [c]).
Proof.
  intros Hc Hne Hs.
  destruct c as [|l|l| |]; try done; (destruct l as [|x l]; [done|]);
    simpl in Hs; apply andb_prop in Hs as [Hx _];
    destruct x; try done; by unfold scan, normalize.
Qed.

Lemma scan_bare_axis_witness :
  normalize (PSeq (nums [1; 2; 3]%Z)) = Ok [items (PSeq (nums [1; 2; 3]%Z))] ∧
  scan (float_dtype Float32) ["a"] metric_a quiet (PSeq (nums [1; 2; 3]%Z))
  = scan (float_dtype Float32) ["a"] metric_a quiet
      (PSeq [PSeq (nums [1; 2; 3]%Z)]).
Proof.
  apply (scan_bare_axis (float_dtype Float32) ["a"] metric_a quiet
           (PSeq (nums [1; 2; 3]%Z))); [reflexivity|discriminate|reflexivity].
Defined.

(** ** Conversion to the float type *)

(** C7 fails on the code: the metric result [2^53 + 1] has no exact binary
    float of either width, yet the scan succeeds and returns [2^53] in its
    place. *)
Lemma scan_conversion_counterexample :
  scan (float_dtype Float64) ["a"] (metric_const 9007199254740993) quiet
    (PSeq [PSeq [PNum 0]])
  = (mk_trace [ {["a" := PNum 0]} ] [],
     Ok (mk_ndarray [1] [Finite 9007199254740992])) ∧
  scan (float_dtype Float32) ["a"] (metric_const 9007199254740993) quiet
    (PSeq [PSeq [PNum 0]])
  = (mk_trace [ {["a" := PNum 0]} ] [],
     Ok (mk_ndarray [1] [Finite 9007199254740992])).
Proof. split; vm_compute; reflexivity. Qed.

(** C7, as the code has it: the results are converted only once every
    point has been evaluated, whatever the result type and the conversion
    to [FTYPE] are.  If each result converts, the array holds the converted
    values, with no check that a conversion was lossless; otherwise the
    scan raises the error of a conversion that failed and no array is
    returned. *)
Theorem scan_conversion {V F} (FTYPE : dtype V F) names metric console specs :
  valid_spec specs = true →
  metric_returns names metric (nested_loops (grid specs)) = true →
  console_works console (length (nested_loops (grid specs))) = true →
  ∃ tr r,
    scan FTYPE names metric console specs = (tr, r) ∧
    calls tr = map (point_mapping names) (nested_loops (grid specs)) ∧
    if results_convert FTYPE names metric (nested_loops (grid specs))
    then ∃ a, r = Ok a ∧
              shape a = map length (grid specs) ∧
              Forall2 (result_at FTYPE names metric)
                (nested_loops (grid specs)) (data a)
    else ∃ p v e, In p (nested_loops (grid specs)) ∧
                  metric (point_mapping names p) = Ok v ∧
                  FTYPE v = Raise e ∧
                  r = Raise e.
Proof.
  intros Hvalid Hm Hc.
  destruct (results_convert _ _ _ _) eqn:Hr.
  - destruct (scan_clean_run FTYPE names metric console specs
                Hvalid Hm Hr Hc) as (buf & Hbuf & ->).
    eexists _, _. split; [done|]. split; [done|]. by eexists.
  - destruct (scan_all_calls FTYPE names metric console specs
                Hvalid Hm Hc) as (vals & Hvals & ->).
    eexists _, _. split; [done|]. split; [done|].
    rewrite (returned_values_convert _ _ _ _ _ Hvals) in Hr.
    apply np_array_raises in Hr as (v & e & Hin & Hv & ->).
    apply list_elem_of_In, list_elem_of_lookup in Hin as [k Hk].
    destruct (Forall2_lookup_r _ _ _ _ _ Hvals Hk) as (p & Hp & Hpv).
    exists p, v, e. repeat split; try done.
    by apply list_elem_of_In, list_elem_of_lookup_2 with k.
Qed.

Lemma scan_conversion_witness :
  ∃ tr r,
    scan (float_dtype Float32) ["a"] (metric_const 9007199254740993) quiet
      (PSeq [PSeq [PNum 0]]) = (tr, r) ∧
    calls tr = map (point_mapping ["a"]) (nested_loops (grid (PSeq [PSeq [PNum 0]]))) ∧
    if results_convert (float_dtype Float32) ["a"]
         (metric_const 9007199254740993)
         (nested_loops (grid (PSeq [PSeq [PNum 0]])))
    then ∃ a, r = Ok a ∧
              shape a = map length (grid (PSeq [PSeq [PNum 0]])) ∧
              Forall2 (result_at (float_dtype Float32) ["a"]
                         (metric_const 9007199254740993))
                (nested_loops (grid (PSeq [PSeq [PNum 0]]))) (data a)
    else ∃ p v e, In p (nested_loops (grid (PSeq [PSeq [PNum 0]]))) ∧
                  metric_const 9007199254740993 (point_mapping ["a"] p) = Ok v ∧
                  float_dtype Float32 v = Raise e ∧
                  r = Raise e.
Proof.
  apply (scan_conversion (float_dtype Float32) ["a"]
           (metric_const 9007199254740993) quiet (PSeq [PSeq [PNum 0]]));
    reflexivity.
Defined.

(** Integers within the significand pass through the conversion unchanged. *)
Lemma float_dtype_exact t z :
  (Z.abs z < 2 ^ 24)%Z → float_dtype t (MInt z) = Ok (Finite z).
Proof.
  intros Hz. simpl. unfold to_double.
  rewrite (round_sig_exact 53 z) by lia.
  assert ((Z.abs z <? 2 ^ 1024)%Z = true) as ->.
  { apply Z.ltb_lt. eapply Z.lt_trans; [exact Hz|].
    apply Z.pow_lt_mono_r; lia. }
  simpl. destruct t; [|done]. unfold to_float.
  rewrite (round_sig_exact 24 z) by lia.
  assert ((Z.abs z <? 2 ^ 128)%Z = true) as ->; [|done].
  apply Z.ltb_lt. eapply Z.lt_trans; [exact Hz|].
  apply Z.pow_lt_mono_r; lia.
Qed.

(** ** Axis names *)

(** C8 fails on the code, which never compares or checks the names: with
    one name for two axes, and with the same name twice, every point is
    evaluated and an array is returned. *)
Lemma scan_names_counterexample :
  (scan (float_dtype Float64) ["a"] metric_a quiet example_axes).2
  = Ok (mk_ndarray [2; 3]
          [Finite 1; Finite 1; Finite 1; Finite 2; Finite 2; Finite 2]) ∧
  (scan (float_dtype Float64) ["a"; "a"] metric_a quiet example_axes).2
  = Ok (mk_ndarray [2; 3]
          [Finite 10; Finite 20; Finite 30; Finite 10; Finite 20; Finite 30]) ∧
  ¬ rejected (scan (float_dtype Float64) ["a"] metric_a quiet example_axes) ∧
  ¬ rejected (scan (float_dtype Float64) ["a"; "a"] metric_a quiet example_axes).
Proof.
  repeat split; try (vm_compute; reflexivity);
    intros [Hcalls _]; vm_compute in Hcalls; discriminate.
Qed.

(** C8, as the code has it: whatever the names are, [scan] evaluates every
    point and returns the array; the mapping of a point binds a name to the
    value at the last position, within the shorter of names and point,
    where that name stands, so surplus names or values are dropped and a
    repeated name keeps its last value. *)
Theorem scan_names_unchecked {V F} (FTYPE : dtype V F) names metric console
    specs :
  valid_spec specs = true →
  metric_returns names metric (nested_loops (grid specs)) = true →
  results_convert FTYPE names metric (nested_loops (grid specs)) = true →
  console_works console (length (nested_loops (grid specs))) = true →
  ∃ tr a,
    scan FTYPE names metric console specs = (tr, Ok a) ∧
    shape a = map length (grid specs) ∧
    calls tr = map (point_mapping names) (nested_loops (grid specs)) ∧
    length (calls tr) = list_prod (shape a) ∧
    ∀ p k v,
      point_mapping names p !! k = Some v ↔
      ∃ i, names !! i = Some k ∧ p !! i = Some v ∧
           ∀ j, i < j → j < length p → names !! j ≠ Some k.
Proof.
  intros Hvalid Hm Hr Hc.
  destruct (scan_clean_run FTYPE names metric console specs Hvalid Hm Hr Hc)
    as (buf & Hbuf & ->).
  eexists _, _. split; [done|]. simpl. do 2 (split; [done|]). split.
  - by rewrite length_map, nested_loops_length.
  - apply point_mapping_lookup.
Qed.

Lemma scan_names_unchecked_witness :
  ∃ tr a,
    scan (float_dtype Float64) ["a"; "a"] metric_a quiet example_axes
    = (tr, Ok a) ∧
    shape a = map length (grid example_axes) ∧
    calls tr = map (point_mapping ["a"; "a"]) (nested_loops (grid example_axes)) ∧
    length (calls tr) = list_prod (shape a) ∧
    ∀ p k v,
      point_mapping ["a"; "a"] p !! k = Some v ↔
      ∃ i, ["a"; "a"] !! i = Some k ∧ p !! i = Some v ∧
           ∀ j, i < j → j < length p → ["a"; "a"] !! j ≠ Some k.
Proof.
  apply (scan_names_unchecked (float_dtype Float64) ["a"; "a"] metric_a quiet
           example_axes); vm_compute; reflexivity.
Defined.

(** ** Progress reporting *)

(** C9 fails on the code, where nothing catches an exception of the
    progress output: on 501 points with a console that raises at point 500,
    the scan raises that exception after 501 invocations. *)
Lemma scan_report_counterexample :
  (scan (float_dtype Float64) ["a"] (metric_const 0)
     (console_broken_at 500 (OtherError 5)) (PSeq [py_range 501])).2
  = Raise (OtherError 5) ∧
  length (calls (scan (float_dtype Float64) ["a"] (metric_const 0)
                   (console_broken_at 500 (OtherError 5))
                   (PSeq [py_range 501])).1) = 501 ∧
  is_ok (scan (float_dtype Float64) ["a"] (metric_const 0) quiet
           (PSeq [py_range 501])).2 = true.
Proof. repeat split; vm_compute; reflexivity. Qed.

(** C9, as the code has it: when the progress line due at point [n] cannot
    be written, the exception reaches the caller; the scan stops there,
    after the invocations on the points [0 .. n], and returns no array. *)
Theorem scan_report_failure {V F} (FTYPE : dtype V F) names metric console
    specs n p e :
  valid_spec specs = true →
  nested_loops (grid specs) !! n = Some p →
  report_due n = true →
  console n = Some e →
  metric_returns names metric (take (S n) (nested_loops (grid specs))) = true →
  console_works console n = true →
  ∃ tr,
    scan FTYPE names metric console specs = (tr, Raise e) ∧
    calls tr = map (point_mapping names) (take (S n) (nested_loops (grid specs))) ∧
    reports tr = reports_upto n.
Proof.
  intros Hvalid Hn Hdue He Hm Hc.
  rewrite (take_S_r _ _ _ Hn) in Hm. unfold metric_returns in Hm.
  rewrite forallb_app in Hm. apply andb_prop in Hm as [Hm Hp].
  simpl in Hp. rewrite andb_true_r in Hp.
  rewrite (scan_stops_at FTYPE names metric console specs n p e); try done.
  - by eexists.
  - by destruct (metric (point_mapping names p)).
Qed.

Lemma scan_report_failure_witness :
  ∃ tr,
    scan (float_dtype Float64) ["a"] (metric_const 0)
      (console_broken_at 500 (OtherError 5)) (PSeq [py_range 501])
    = (tr, Raise (OtherError 5)) ∧
    calls tr = map (point_mapping ["a"])
                 (take 501 (nested_loops (grid (PSeq [py_range 501])))) ∧
    reports tr = reports_upto 500.
Proof.
  apply (scan_report_failure (float_dtype Float64) ["a"] (metric_const 0)
           (console_broken_at 500 (OtherError 5)) (PSeq [py_range 501]) 500
           [PNum 500] (OtherError 5)); vm_compute; reflexivity.
Defined.

(** Lines that are written leave no mark on the outcome: two consoles that
    accept every due line give the same scan. *)
Lemma scan_console_irrelevant {V F} (FTYPE : dtype V F) names metric
    console console' specs :
  valid_spec specs = true →
  console_works console (length (nested_loops (grid specs))) = true →
  console_works console' (length (nested_loops (grid specs))) = true →
  scan FTYPE names metric console specs = scan FTYPE names metric console' specs.
Proof.
  intros Hvalid Hc Hc'. unfold scan.
  rewrite (normalize_valid _ Hvalid), product_nested_loops. unfold enumerate.
  rewrite (scan_loop_console_ext names metric console console'); [done|].
  intros n [_ Hn] Hdue.
  rewrite (proj1 (console_works_spec _ _) Hc n), (proj1 (console_works_spec _ _) Hc' n);
    done.
Qed.

(** A one-shot iterator passed bare loses its first item to the test for
    the shorthand. *)
Example scan_bare_generator :
  (scan (float_dtype Float64) ["a"] metric_a quiet (PGen (nums [1; 2; 3]%Z))).2
  = Ok (mk_ndarray [2] [Finite 2; Finite 3]).
Proof. vm_compute; reflexivity. Qed.

(** * Further properties of the scan *)

(** ** What the normalisation accepts *)

Lemma to_sequences_ext svs svs' :
  Forall2 (fun a b => to_sequence a = to_sequence b) svs svs' →
  to_sequences svs = to_sequences svs'.
Proof. induction 1 as [|a b svs svs' Hab _ IH]; simpl; [done|]. by rewrite Hab, IH. Qed.

Lemma to_sequences_raises svs :
  forallb is_axis svs = false → to_sequences svs = Raise TypeError.
Proof.
  induction svs as [|sv svs IH]; simpl; [done|].
  destruct sv; simpl; try done; intros H; by rewrite (IH H).
Qed.

(** On a list, tuple or array the normalisation succeeds exactly on the
    valid specifications. *)
Lemma normalize_collection specs :
  is_collection specs = true →
  normalize specs
  = if valid_spec specs then Ok (grid specs)
    else Raise (if length (items specs) =? 0 then StopIteration else TypeError).
Proof.
  intros Hc. destruct (valid_spec specs) eqn:Hv; [by apply normalize_valid|].
  unfold valid_spec in Hv. rewrite Hc in Hv. simpl in Hv.
  destruct specs as [|l|l| |]; try done;
    (destruct l as [|x l]; [done|]); simpl in *;
    unfold normalize, spec_axes in *; simpl in *;
    destruct x; simpl in *; try done; by rewrite (to_sequences_raises _ Hv).
Qed.

(** Any axis may be written as the list of its values: a scalar after the
    first position as a one-element list, an array or an iterator as the
    list of its items.  The scan (calls, progress lines, outcome) is the
    same, provided the specification does not start with a scalar. *)
Theorem scan_axis_as_list {V F} (FTYPE : dtype V F) names metric console
    pre axis post :
  is_axis axis = true →
  np_isscalar (hd axis pre) = false →
  scan FTYPE names metric console (PSeq (pre ++ axis :: post))
  = scan FTYPE names metric console
      (PSeq (pre ++ PSeq (materialize axis) :: post)).
Proof.
  intros Hax Hhd.
  assert (to_sequences (pre ++ axis :: post)
          = to_sequences (pre ++ PSeq (materialize axis) :: post)) as Hseq.
  { apply to_sequences_ext, Forall2_app; [by apply Forall_Forall2_diag, Forall_true|].
    constructor; [|by apply Forall_Forall2_diag, Forall_true].
    by rewrite (to_sequence_axis _ Hax). }
  unfold scan, normalize.
  destruct pre as [|a0 pre]; simpl in *.
  - rewrite Hhd. simpl in *. by rewrite Hseq.
  - rewrite Hhd. simpl in *. by rewrite Hseq.
Qed.

Lemma scan_axis_as_list_witness :
  scan (float_dtype Float64) ["a"; "b"] metric_a100b quiet
    (PSeq ([PArr (nums [1; 2]%Z)] ++ PNum 10 :: []))
  = scan (float_dtype Float64) ["a"; "b"] metric_a100b quiet
      (PSeq ([PArr (nums [1; 2]%Z)] ++ PSeq (materialize (PNum 10)) :: [])).
Proof.
  apply (scan_axis_as_list (float_dtype Float64) ["a"; "b"] metric_a100b quiet
           [PArr (nums [1; 2]%Z)] (PNum 10) []); reflexivity.
Defined.

Lemma nested_loops_single {A} (pool : list A) :
  nested_loops [pool] = map (fun v => [v]) pool.
Proof. simpl. induction pool as [|x pool IH]; simpl; [done|]. by rewrite IH. Qed.

(** A collection that starts with a scalar is always one axis, whatever its
    other elements are: each element, be it a list, is handed to the metric
    as the value of the first parameter, and the result is one-dimensional
    with one entry per element. *)
Theorem scan_leading_scalar {V F} (FTYPE : dtype V F) names metric console
    c first rest :
  is_collection c = true →
  items c = first :: rest →
  np_isscalar first = true →
  metric_returns names metric (map (fun v => [v]) (items c)) = true →
  results_convert FTYPE names metric (map (fun v => [v]) (items c)) = true →
  console_works console (length (items c)) = true →
  ∃ tr a,
    scan FTYPE names metric console c = (tr, Ok a) ∧
    shape a = [length (items c)] ∧
    calls tr = map (fun v => point_mapping names [v]) (items c) ∧
    Forall2 (fun v x => result_at FTYPE names metric [v] x) (items c) (data a).
Proof.
  intros Hc Hitems Hfirst Hm Hr Hcon.
  assert (valid_spec c = true) as Hvalid.
  { unfold valid_spec. rewrite Hc, (spec_axes_bare c first rest), Hitems; try done.
    by destruct c. }
  assert (grid c = [items c]) as Hgrid.
  { unfold grid. rewrite (spec_axes_bare c first rest); try done. by destruct c. }
  destruct (scan_clean_run FTYPE names metric console c Hvalid)
    as (buf & Hbuf & ->);
    rewrite ?Hgrid, ?nested_loops_single, ?length_map; try done.
  rewrite Hgrid, nested_loops_single in Hbuf.
  eexists _, _. split; [done|]. simpl. split; [done|].
  rewrite map_map. split; [done|].
  exact (proj1 (Forall2_fmap_l _ _ _ _) Hbuf).
Qed.

Lemma scan_leading_scalar_witness :
  ∃ tr a,
    scan (float_dtype Float64) ["a"; "b"] (metric_const 7) quiet
      (PSeq [PNum 5; PSeq (nums [1; 2; 3]%Z)]) = (tr, Ok a) ∧
    shape a = [length (items (PSeq [PNum 5; PSeq (nums [1; 2; 3]%Z)]))] ∧
    calls tr = map (fun v => point_mapping ["a"; "b"] [v])
                 (items (PSeq [PNum 5; PSeq (nums [1; 2; 3]%Z)])) ∧
    Forall2 (fun v x => result_at (float_dtype Float64) ["a"; "b"]
                          (metric_const 7) [v] x)
      (items (PSeq [PNum 5; PSeq (nums [1; 2; 3]%Z)])) (data a).
Proof.
  apply (scan_leading_scalar (float_dtype Float64) ["a"; "b"] (metric_const 7)
           quiet (PSeq [PNum 5; PSeq (nums [1; 2; 3]%Z)]) (PNum 5)
           [PSeq (nums [1; 2; 3]%Z)]); reflexivity.
Defined.

(** A one-shot iterator of scalars passed bare is scanned without its first
    item, which the test for the shorthand has consumed: the scan is that of
    the remaining items as a single axis, so that a clean run returns one
    entry fewer than the iterator had items and never evaluates the
    first. *)
Theorem scan_iterator_of_scalars {V F} (FTYPE : dtype V F) names metric console
    first rest :
  np_isscalar first = true →
  metric_returns names metric (map (fun v => [v]) rest) = true →
  results_convert FTYPE names metric (map (fun v => [v]) rest) = true →
  console_works console (length rest) = true →
  ∃ tr a,
    scan FTYPE names metric console (PGen (first :: rest)) = (tr, Ok a) ∧
    scan FTYPE names metric console (PGen (first :: rest))
    = scan FTYPE names metric console (PSeq [PSeq rest]) ∧
    shape a = [length rest] ∧
    calls tr = map (fun v => point_mapping names [v]) rest.
Proof.
  intros Hfirst Hm Hr Hc.
  assert (scan FTYPE names metric console (PGen (first :: rest))
          = scan FTYPE names metric console (PSeq [PSeq rest])) as Heq.
  { unfold scan, normalize. simpl. by rewrite Hfirst. }
  rewrite Heq.
  assert (grid (PSeq [PSeq rest]) = [rest]) as Hgrid by done.
  destruct (scan_clean_run FTYPE names metric console (PSeq [PSeq rest]))
    as (buf & Hbuf & ->);
    rewrite ?Hgrid, ?(nested_loops_single rest), ?length_map; try done.
  eexists _, _. split; [done|]. split; [done|]. simpl. split; [done|].
  by rewrite map_map.
Qed.

Lemma scan_iterator_of_scalars_witness :
  ∃ tr a,
    scan (float_dtype Float64) ["a"] metric_a quiet
      (PGen (PNum 1 :: nums [2; 3]%Z)) = (tr, Ok a) ∧
    scan (float_dtype Float64) ["a"] metric_a quiet
      (PGen (PNum 1 :: nums [2; 3]%Z))
    = scan (float_dtype Float64) ["a"] metric_a quiet
        (PSeq [PSeq (nums [2; 3]%Z)]) ∧
    shape a = [length (nums [2; 3]%Z)] ∧
    calls tr = map (fun v => point_mapping ["a"] [v]) (nums [2; 3]%Z).
Proof.
  apply (scan_iterator_of_scalars (float_dtype Float64) ["a"] metric_a quiet
           (PNum 1) (nums [2; 3]%Z)); reflexivity.
Defined.

(** A one-shot iterator of axes is scanned without its first axis, which
    the same test has consumed: a clean run returns an array with one
    dimension fewer, over the remaining axes only. *)
Theorem scan_iterator_of_axes {V F} (FTYPE : dtype V F) names metric console
    first second rest :
  np_isscalar first = false →
  np_isscalar second = false →
  forallb is_axis (second :: rest) = true →
  metric_returns names metric
    (nested_loops (map materialize (second :: rest))) = true →
  results_convert FTYPE names metric
    (nested_loops (map materialize (second :: rest))) = true →
  console_works console
    (length (nested_loops (map materialize (second :: rest)))) = true →
  ∃ tr a,
    scan FTYPE names metric console (PGen (first :: second :: rest))
    = (tr, Ok a) ∧
    shape a = map (fun axis => length (materialize axis)) (second :: rest) ∧
    calls tr = map (point_mapping names)
                 (nested_loops (map materialize (second :: rest))).
Proof.
  intros Hfirst Hsecond Hax Hm Hr Hc.
  assert (scan FTYPE names metric console (PGen (first :: second :: rest))
          = scan FTYPE names metric console (PSeq (second :: rest))) as ->.
  { unfold scan, normalize. simpl. by rewrite Hfirst, Hsecond. }
  assert (grid (PSeq (second :: rest)) = map materialize (second :: rest))
    as Hgrid.
  { unfold grid. by rewrite spec_axes_wrapped. }
  destruct (scan_clean_run FTYPE names metric console (PSeq (second :: rest)))
    as (buf & Hbuf & ->); rewrite ?Hgrid; try done.
  { unfold valid_spec. rewrite spec_axes_wrapped by done. by rewrite Hax. }
  eexists _, _. split; [done|]. simpl. by rewrite map_map.
Qed.

Lemma scan_iterator_of_axes_witness :
  ∃ tr a,
    scan (float_dtype Float64) ["a"; "b"] metric_a quiet
      (PGen [PSeq (nums [1; 2]%Z); PSeq (nums [10; 20]%Z)]) = (tr, Ok a) ∧
    shape a = map (fun axis => length (materialize axis))
                [PSeq (nums [10; 20]%Z)] ∧
    calls tr = map (point_mapping ["a"; "b"])
                 (nested_loops (map materialize [PSeq (nums [10; 20]%Z)])).
Proof.
  apply (scan_iterator_of_axes (float_dtype Float64) ["a"; "b"] metric_a
           quiet (PSeq (nums [1; 2]%Z)) (PSeq (nums [10; 20]%Z)) []);
    reflexivity.
Defined.

(** ** What every run of the loop keeps *)

Section LoopInvariants.
Context {V : Type}.
Variable names : list string.
Variable metric : gmap string pyval → result V.
Variable console : nat → option exn.

(** The calls made so far are never dropped or reordered: the loop only
    appends, one call per point, in the order of the points. *)
Lemma scan_loop_calls n0 pts tr vals :
  ∃ k, k ≤ length pts ∧ (pts ≠ [] → 0 < k) ∧
    calls (scan_loop names metric console (enumerate_from n0 pts) tr vals).1
    = calls tr ++ map (point_mapping names) (take k pts) ∧
    (is_ok (scan_loop names metric console (enumerate_from n0 pts) tr vals).2
     = true → k = length pts).
Proof.
  revert n0 tr vals. induction pts as [|p pts IH]; intros n0 tr vals; simpl.
  - exists 0. by rewrite app_nil_r.
  - fold (point_mapping names p).
    destruct (metric (point_mapping names p)) as [v|e]; simpl.
    2:{ exists 1. simpl. repeat split; try done; lia. }
    destruct (report_due n0); [destruct (console n0) as [e|]|]; simpl.
    + exists 1. simpl. repeat split; try done; lia.
    + destruct (IH (S n0) (mk_trace (calls tr ++ [point_mapping names p])
                             (reports tr ++ [n0])) (vals ++ [v]))
        as (k & Hk & _ & -> & Hok).
      exists (S k). simpl. rewrite <- app_assoc.
      repeat split; try done; try lia. intros H. by rewrite Hok.
    + destruct (IH (S n0) (mk_trace (calls tr ++ [point_mapping names p])
                             (reports tr)) (vals ++ [v]))
        as (k & Hk & _ & -> & Hok).
      exists (S k). simpl. rewrite <- app_assoc.
      repeat split; try done; try lia. intros H. by rewrite Hok.
Qed.

(** A loop that runs to its end has evaluated every point and written
    every line that was due. *)
Lemma scan_loop_returns n0 pts tr vals tr' vals' :
  scan_loop names metric console (enumerate_from n0 pts) tr vals
  = (tr', Ok vals') →
  calls tr' = calls tr ++ map (point_mapping names) pts ∧
  reports tr'
  = reports tr ++ filter (fun n => report_due n = true) (seq n0 (length pts)) ∧
  ∃ vs, vals' = vals ++ vs ∧
        Forall2 (fun p v => metric (point_mapping names p) = Ok v) pts vs.
Proof.
  revert n0 tr vals. induction pts as [|p pts IH]; intros n0 tr vals; simpl.
  - intros [= <- <-]. rewrite !app_nil_r. repeat split; try done.
    exists []. by rewrite app_nil_r.
  - fold (point_mapping names p).
    destruct (metric (point_mapping names p)) as [v|e] eqn:Hv; [|done].
    rewrite filter_cons.
    destruct (report_due n0) eqn:Hdue; [destruct (console n0); [done|]|];
      intros (Hcalls & Hreports & vs & -> & Hvs)%IH; simpl in *;
      rewrite Hcalls, Hreports; rewrite <- ?app_assoc;
      (repeat split; try done); exists (v :: vs);
      (split; [by rewrite <- ?app_assoc|by constructor]).
Qed.
End LoopInvariants.

Lemma np_array_inv {V F} (dt : dtype V F) vals buf :
  np_array dt vals = Ok buf → Forall2 (fun v x => dt v = Ok x) vals buf.
Proof.
  revert buf. induction vals as [|v vals IH]; simpl; intros buf H.
  - injection H as <-. constructor.
  - destruct (dt v) as [x|] eqn:Hx; simpl in H; [|done].
    destruct (np_array dt vals) as [xs|]; simpl in H; [|done].
    injection H as <-. constructor; [done|]. by apply IH.
Qed.

(** Whether the scan succeeds or fails, the metric has been invoked on an
    initial segment of the enumeration: each of its first [k] points once,
    in order, and no other point. *)
Theorem scan_calls_in_order {V F} (FTYPE : dtype V F) names metric console
    specs :
  valid_spec specs = true →
  ∃ k, k ≤ length (nested_loops (grid specs)) ∧
    calls (scan FTYPE names metric console specs).1
    = map (point_mapping names) (take k (nested_loops (grid specs))).
Proof.
  intros Hvalid. unfold scan.
  rewrite (normalize_valid _ Hvalid), product_nested_loops. unfold enumerate.
  destruct (scan_loop_calls names metric console 0 (nested_loops (grid specs))
              (mk_trace [] []) []) as (k & Hk & _ & Hcalls & _).
  exists k. split; [done|].
  by destruct (scan_loop _ _ _ _ _ _).
Qed.

Lemma scan_calls_in_order_witness :
  ∃ k, k ≤ length (nested_loops (grid example_axes)) ∧
    calls (scan (float_dtype Float32) ["a"; "b"]
             (metric_b_except 30 (OtherError 7)) quiet example_axes).1
    = map (point_mapping ["a"; "b"]) (take k (nested_loops (grid example_axes))).
Proof.
  apply (scan_calls_in_order (float_dtype Float32) ["a"; "b"]
           (metric_b_except 30 (OtherError 7)) quiet example_axes).
  reflexivity.
Defined.

(** There is no partial success: whenever the scan returns an array, the
    specification was valid, every point of the grid has been evaluated,
    every due progress line written, and the array holds, in enumeration
    order, the converted result of each call. *)
Theorem scan_all_or_nothing {V F} (FTYPE : dtype V F) names metric console
    specs tr a :
  is_collection specs = true →
  scan FTYPE names metric console specs = (tr, Ok a) →
  valid_spec specs = true ∧
  calls tr = map (point_mapping names) (nested_loops (grid specs)) ∧
  reports tr = reports_upto (length (nested_loops (grid specs))) ∧
  shape a = map length (grid specs) ∧
  Forall2 (result_at FTYPE names metric) (nested_loops (grid specs)) (data a).
Proof.
  intros Hc. unfold scan. rewrite (normalize_collection _ Hc).
  destruct (valid_spec specs); [|done].
  rewrite product_nested_loops. unfold enumerate.
  destruct (scan_loop _ _ _ _ _ _) as [tr' [vals|e]] eqn:Hloop; [|done].
  apply scan_loop_returns in Hloop as (Hcalls & Hreports & vs & -> & Hvs).
  simpl in *. destruct (np_array FTYPE vs) as [buf|] eqn:Hbuf; simpl; [|done].
  unfold reshape. destruct (_ =? _); [|done].
  intros [= <- <-]. simpl. repeat split; try done.
  apply np_array_inv in Hbuf. clear -Hvs Hbuf. revert buf Hbuf.
  induction Hvs as [|p v pts vals Hv _ IH]; intros buf Hbuf;
    inversion Hbuf; subst; constructor; [by exists v|by apply IH].
Qed.

Lemma scan_all_or_nothing_witness :
  valid_spec example_axes = true ∧
  calls (mk_trace
       [ {["a" := PNum 1; "b" := PNum 10]}; {["a" := PNum 1; "b" := PNum 20]};
         {["a" := PNum 1; "b" := PNum 30]}; {["a" := PNum 2; "b" := PNum 10]};
         {["a" := PNum 2; "b" := PNum 20]}; {["a" := PNum 2; "b" := PNum 30]} ]
       [])
  = map (point_mapping ["a"; "b"]) (nested_loops (grid example_axes)) ∧
  reports (mk_trace
       [ {["a" := PNum 1; "b" := PNum 10]}; {["a" := PNum 1; "b" := PNum 20]};
         {["a" := PNum 1; "b" := PNum 30]}; {["a" := PNum 2; "b" := PNum 10]};
         {["a" := PNum 2; "b" := PNum 20]}; {["a" := PNum 2; "b" := PNum 30]} ]
       [])
  = reports_upto (length (nested_loops (grid example_axes))) ∧
  shape (mk_ndarray [2; 3]
           [Finite 110; Finite 120; Finite 130;
            Finite 210; Finite 220; Finite 230])
  = map length (grid example_axes) ∧
  Forall2 (result_at (float_dtype Float64) ["a"; "b"] metric_a100b)
    (nested_loops (grid example_axes))
    (data (mk_ndarray [2; 3]
           [Finite 110; Finite 120; Finite 130;
            Finite 210; Finite 220; Finite 230])).
Proof.
  apply (scan_all_or_nothing (float_dtype Float64) ["a"; "b"] metric_a100b
           quiet example_axes); vm_compute; reflexivity.
Defined.

(** On a list, tuple or array, the scan fails before any metric invocation
    exactly when the specification is empty or holds an axis that is
    neither scalar nor iterable; the error is [StopIteration] in the first
    case and [TypeError] in the second.  Nothing else is rejected up
    front. *)
Theorem scan_rejected_iff {V F} (FTYPE : dtype V F) names metric console specs :
  is_collection specs = true →
  (rejected (scan FTYPE names metric console specs) ↔ valid_spec specs = false) ∧
  (valid_spec specs = false →
   scan FTYPE names metric console specs
   = (mk_trace [] [],
      Raise (if length (items specs) =? 0 then StopIteration else TypeError))).
Proof.
  intros Hc.
  assert (valid_spec specs = false →
          scan FTYPE names metric console specs
          = (mk_trace [] [],
             Raise (if length (items specs) =? 0 then StopIteration
                    else TypeError))) as Hrej.
  { intros Hv. unfold scan. by rewrite (normalize_collection _ Hc), Hv. }
  split; [|done]. split.
  - intros [Hcalls [e He]]. destruct (valid_spec specs) eqn:Hvalid; [|done].
    exfalso. destruct (nested_loops (grid specs)) as [|p pts] eqn:Hpts.
    + destruct (scan_clean_run FTYPE names metric console specs Hvalid)
        as (buf & _ & Hscan); try by rewrite Hpts.
      by rewrite Hscan in He.
    + revert Hcalls. unfold scan.
      rewrite (normalize_valid _ Hvalid), product_nested_loops, Hpts.
      unfold enumerate.
      destruct (scan_loop_calls names metric console 0 (p :: pts)
                  (mk_trace [] []) []) as (k & _ & Hk & Hcalls & _).
      destruct (scan_loop _ _ _ _ _ _). simpl in *. rewrite Hcalls.
      destruct k; [by specialize (Hk ltac:(done)); lia|done].
  - intros Hv. rewrite (Hrej Hv). split; [done|]. by eexists.
Qed.

Lemma scan_rejected_iff_witness :
  (rejected (scan (float_dtype Float64) ["a"] metric_a quiet
               (PSeq [PSeq (nums [1; 2]%Z); PNone]))
   ↔ valid_spec (PSeq [PSeq (nums [1; 2]%Z); PNone]) = false) ∧
  (valid_spec (PSeq [PSeq (nums [1; 2]%Z); PNone]) = false →
   scan (float_dtype Float64) ["a"] metric_a quiet
     (PSeq [PSeq (nums [1; 2]%Z); PNone])
   = (mk_trace [] [],
      Raise (if length (items (PSeq [PSeq (nums [1; 2]%Z); PNone])) =? 0
             then StopIteration else TypeError))).
Proof.
  apply (scan_rejected_iff (float_dtype Float64) ["a"] metric_a quiet
           (PSeq [PSeq (nums [1; 2]%Z); PNone])).
  reflexivity.
Defined.

(** ** Progress lines *)

Lemma reports_upto_S total :
  reports_upto (S total)
  = reports_upto total ++ (if report_due total then [total] else []).
Proof.
  unfold reports_upto. rewrite seq_S, filter_app. simpl. f_equal.
  rewrite filter_cons, filter_nil. by destruct (report_due total).
Qed.

Lemma report_due_spec n :
  report_due n = true ↔ ∃ q, n = report_after * S q.
Proof.
  unfold report_due, report_after.
  rewrite andb_true_iff, Nat.ltb_lt, Nat.eqb_eq. split.
  - intros [Hpos Hmod]. apply Nat.Lcm0.mod_divide in Hmod as [q Hq].
    destruct q as [|q]; [lia|]. exists q. lia.
  - intros [q ->]. split; [lia|].
    apply Nat.Lcm0.mod_divide. exists (S q). lia.
Qed.

(** A progress line is written at the points 500, 1000, 1500, ... and at
    no other: never at point 0, and at a multiple of 500 only once that
    point has been evaluated. *)
Lemma reports_upto_multiples total :
  reports_upto total
  = map (fun j => report_after * S j) (seq 0 ((total - 1) / report_after)).
Proof.
  induction total as [|t IH]; [done|].
  rewrite reports_upto_S, IH. replace (S t - 1) with t by lia.
  destruct (report_due t) eqn:Hdue.
  - apply report_due_spec in Hdue as [q ->]. unfold report_after.
    replace ((500 * S q - 1) / 500) with q
      by (apply (Nat.div_unique _ 500 q 499); lia).
    replace (500 * S q / 500) with (S q)
      by (apply (Nat.div_unique _ 500 (S q) 0); lia).
    by rewrite seq_S, map_app.
  - rewrite app_nil_r. do 2 f_equal.
    destruct t as [|t]; [done|]. replace (S t - 1) with t by lia.
    pose proof (Nat.div_mod_eq (S t) report_after) as Hdm.
    pose proof (Nat.mod_upper_bound (S t) report_after) as Hub.
    unfold report_after in *. specialize (Hub ltac:(lia)).
    destruct (S t mod 500) as [|r] eqn:Hr.
    + assert (report_due (S t) = true); [|congruence].
      apply report_due_spec. unfold report_after.
      destruct (S t / 500) as [|q] eqn:Hq; [lia|]. exists q. lia.
    + symmetry. apply (Nat.div_unique _ 500 (S t / 500) r); lia.
Qed.

(** In a run whose metric returns on every point and whose console works,
    the progress lines are those of the points 500, 1000, ... below the
    number of points: [(total - 1) / 500] lines in all. *)
Theorem scan_progress_cadence {V F} (FTYPE : dtype V F) names metric console
    specs :
  valid_spec specs = true →
  metric_returns names metric (nested_loops (grid specs)) = true →
  console_works console (length (nested_loops (grid specs))) = true →
  reports (scan FTYPE names metric console specs).1
  = map (fun j => report_after * S j)
      (seq 0 ((length (nested_loops (grid specs)) - 1) / report_after)).
Proof.
  intros Hvalid Hm Hc.
  destruct (scan_all_calls FTYPE names metric console specs Hvalid Hm Hc)
    as (vals & _ & ->).
  apply reports_upto_multiples.
Qed.

Lemma scan_progress_cadence_witness :
  reports (scan (float_dtype Float64) ["a"; "b"] (metric_const 0) quiet
             (PSeq [py_range 3; py_range 400])).1
  = map (fun j => report_after * S j)
      (seq 0 ((length (nested_loops (grid (PSeq [py_range 3; py_range 400]))) - 1)
              / report_after)).
Proof.
  apply (scan_progress_cadence (float_dtype Float64) ["a"; "b"] (metric_const 0)
           quiet (PSeq [py_range 3; py_range 400])); vm_compute; reflexivity.
Defined.

(** A scan of at most 500 points never writes to the console: its calls
    and its outcome are the same whatever the console does. *)
Theorem scan_small_grid_silent {V F} (FTYPE : dtype V F) names metric
    console console' specs :
  valid_spec specs = true →
  length (nested_loops (grid specs)) ≤ report_after →
  scan FTYPE names metric console specs
  = scan FTYPE names metric console' specs ∧
  reports (scan FTYPE names metric console specs).1 = [].
Proof.
  intros Hvalid Hlen. unfold scan.
  rewrite (normalize_valid _ Hvalid), product_nested_loops. unfold enumerate.
  assert (∀ n, n < length (nested_loops (grid specs)) → report_due n = false)
    as Hnone.
  { intros n Hn. destruct (report_due n) eqn:Hdue; [|done].
    apply report_due_spec in Hdue as [q ->]. unfold report_after in *. exfalso. lia. }
  split.
  - rewrite (scan_loop_console_ext names metric console console'); [done|].
    intros n [_ Hn] Hdue. rewrite Hnone in Hdue; [done|lia].
  - assert (∀ pts n0 tr vals,
              (∀ n, n0 ≤ n < n0 + length pts → report_due n = false) →
              reports (scan_loop names metric console (enumerate_from n0 pts)
                         tr vals).1 = reports tr) as Hloop.
    { induction pts as [|p pts IH]; intros n0 tr vals Hq; simpl in *; [done|].
      destruct (metric _); [|done]. rewrite (Hq n0) by lia.
      rewrite IH; [done|]. intros n ?. apply Hq. lia. }
    specialize (Hloop (nested_loops (grid specs)) 0 (mk_trace [] []) []).
    destruct (scan_loop _ _ _ _ _ _). simpl in *. apply Hloop.
    intros n [_ Hn]. by apply Hnone.
Qed.

Lemma scan_small_grid_silent_witness :
  scan (float_dtype Float64) ["a"; "b"] metric_a100b
    (console_broken_at 3 (OtherError 5)) example_axes
  = scan (float_dtype Float64) ["a"; "b"] metric_a100b quiet example_axes ∧
  reports (scan (float_dtype Float64) ["a"; "b"] metric_a100b
             (console_broken_at 3 (OtherError 5)) example_axes).1 = [].
Proof.
  apply (scan_small_grid_silent (float_dtype Float64) ["a"; "b"] metric_a100b
           (console_broken_at 3 (OtherError 5)) quiet example_axes);
    [reflexivity|vm_compute; lia].
Defined.

Lemma scan_console_irrelevant_witness :
  scan (float_dtype Float64) ["a"] (metric_const 0)
    (console_broken_at 7 (OtherError 5)) (PSeq [py_range 501])
  = scan (float_dtype Float64) ["a"] (metric_const 0) quiet
      (PSeq [py_range 501]).
Proof.
  apply (scan_console_irrelevant (float_dtype Float64) ["a"] (metric_const 0)
           (console_broken_at 7 (OtherError 5)) quiet (PSeq [py_range 501]));
    vm_compute; reflexivity.
Defined.

(** ** The mapping with well-formed names *)

(** With distinct names, one per axis, the metric receives exactly the
    binding of each name to the value of its axis, and nothing else. *)
Theorem point_mapping_distinct names point :
  NoDup names →
  length names = length point →
  (∀ i k, names !! i = Some k → point_mapping names point !! k = point !! i) ∧
  (∀ k, k ∉ names → point_mapping names point !! k = None).
Proof.
  intros Hnd Hlen. split.
  - intros i k Hi.
    pose proof (lookup_lt_Some _ _ _ Hi) as Hlt. rewrite Hlen in Hlt.
    destruct (lookup_lt_is_Some_2 point i Hlt) as [v Hv]. rewrite Hv.
    apply point_mapping_lookup. exists i. do 2 (split; [done|]).
    intros j Hj _ Hname. pose proof (NoDup_lookup _ _ _ _ Hnd Hi Hname). lia.
  - intros k Hk. destruct (point_mapping names point !! k) as [v|] eqn:Hv; [|done].
    apply point_mapping_lookup in Hv as (i & Hi & _).
    destruct Hk. by eapply list_elem_of_lookup_2.
Qed.

Lemma point_mapping_distinct_witness :
  (∀ i k, ["a"; "b"] !! i = Some k →
          point_mapping ["a"; "b"] (nums [1; 10]%Z) !! k = nums [1; 10]%Z !! i) ∧
  (∀ k, k ∉ ["a"; "b"] → point_mapping ["a"; "b"] (nums [1; 10]%Z) !! k = None).
Proof.
  apply (point_mapping_distinct ["a"; "b"] (nums [1; 10]%Z)); [|reflexivity].
  apply (bool_decide_unpack _). vm_compute. reflexivity.
Defined.

(** ** Integer results that fit the float type *)

Lemma Forall2_impl_In {A B} (P Q : A → B → Prop) l k :
  Forall2 P l k → (∀ x y, In x l → P x y → Q x y) → Forall2 Q l k.
Proof.
  induction 1 as [|x y l k Hxy _ IH]; intros HPQ; constructor.
  - apply HPQ; [by left|done].
  - apply IH. intros x' y' Hin. apply HPQ. by right.
Qed.

Lemma float_dtype_exact_width t z :
  (Z.abs z < 2 ^ sig_bits t)%Z → float_dtype t (MInt z) = Ok (Finite z).
Proof.
  intros Hz. destruct t; [by apply float_dtype_exact|].
  simpl in *. unfold to_double.
  rewrite (round_sig_exact 53 z) by lia.
  assert ((Z.abs z <? 2 ^ 1024)%Z = true) as ->; [|done].
  apply Z.ltb_lt. eapply Z.lt_trans; [exact Hz|].
  apply Z.pow_lt_mono_r; lia.
Qed.

(** When every metric result is an integer of magnitude below [2^24] for a
    32-bit [FTYPE], below [2^53] for a 64-bit one, the array returned holds
    exactly those integers: nothing is rounded. *)
Theorem scan_integer_results_exact (t : ftype) names metric console specs :
  valid_spec specs = true →
  integer_results t names metric (nested_loops (grid specs)) = true →
  console_works console (length (nested_loops (grid specs))) = true →
  ∃ tr a,
    scan (float_dtype t) names metric console specs = (tr, Ok a) ∧
    Forall2 (fun p x => ∃ z, metric (point_mapping names p) = Ok (MInt z) ∧
                             x = Finite z)
      (nested_loops (grid specs)) (data a).
Proof.
  intros Hvalid Hint Hc.
  assert (∀ p, In p (nested_loops (grid specs)) →
               ∃ z, metric (point_mapping names p) = Ok (MInt z) ∧
                    (Z.abs z < 2 ^ sig_bits t)%Z) as Hpts.
  { intros p Hp. unfold integer_results in Hint.
    rewrite forallb_forall in Hint. specialize (Hint p Hp).
    destruct (metric (point_mapping names p)) as [[z|]|]; try done.
    exists z. split; [done|]. by apply Z.ltb_lt. }
  destruct (scan_clean_run (float_dtype t) names metric console specs Hvalid)
    as (buf & Hbuf & ->); try done.
  - apply forallb_forall. intros p (z & -> & _)%Hpts. done.
  - apply forallb_forall. intros p (z & -> & Hz)%Hpts.
    by rewrite (float_dtype_exact_width _ _ Hz).
  - eexists _, _. split; [done|]. simpl.
    eapply Forall2_impl_In; [exact Hbuf|].
    intros p x Hp (v & Hv & Hx). apply Hpts in Hp as (z & Hz & Hlt).
    exists z. split; [done|].
    rewrite Hz in Hv. injection Hv as <-.
    rewrite (float_dtype_exact_width _ _ Hlt) in Hx. by injection Hx as <-.
Qed.

Lemma scan_integer_results_exact_witness :
  ∃ tr a,
    scan (float_dtype Float32) ["a"; "b"] metric_a100b quiet example_axes
    = (tr, Ok a) ∧
    Forall2 (fun p x => ∃ z, metric_a100b (point_mapping ["a"; "b"] p)
                             = Ok (MInt z) ∧ x = Finite z)
      (nested_loops (grid example_axes)) (data a).
Proof.
  apply (scan_integer_results_exact Float32 ["a"; "b"] metric_a100b quiet
           example_axes); vm_compute; reflexivity.
Defined.

(** ** The enumeration is the Cartesian product *)

Lemma flat_map_bind {A B} (f : A → list B) l : flat_map f l = l ≫= f.
Proof. induction l as [|x l IH]; simpl; [done|]. by rewrite IH. Qed.

Lemma nested_loops_elem {A} (pools : list (list A)) (p : list A) :
  p ∈ nested_loops pools ↔ Forall2 (fun x pool => x ∈ pool) p pools.
Proof.
  revert p. induction pools as [|pool pools IH]; intros p; simpl.
  - rewrite list_elem_of_singleton. split; [intros ->; constructor|].
    by intros ->%Forall2_nil_inv_r.
  - rewrite flat_map_bind, list_elem_of_bind. split.
    + intros (x & Hp & Hx).
      change (map (cons x) ?l) with (cons x <$> l) in Hp.
      apply list_elem_of_fmap in Hp as (q & -> & Hq).
      constructor; [done|]. by apply IH.
    + intros Hp. inversion Hp as [|x pool' q pools' Hx Hq]; subst.
      exists x. split; [|done].
      change (map (cons x) ?l) with (cons x <$> l).
      apply list_elem_of_fmap. exists q. split; [done|]. by apply IH.
Qed.

(** The points enumerated are exactly the tuples that take one value from
    each pool, in the order of the pools. *)
Theorem product_complete {A} (pools : list (list A)) (p : list A) :
  p ∈ product pools ↔ Forall2 (fun x pool => x ∈ pool) p pools.
Proof. rewrite product_nested_loops. apply nested_loops_elem. Qed.

(** Whatever happens, the metric only ever sees what the caller supplied:
    each key of a mapping it receives is one of the names, bound to a value
    of the axis at a position where that name stands. *)
Theorem scan_calls_from_axes {V F} (FTYPE : dtype V F) names metric console
    specs d k v :
  valid_spec specs = true →
  d ∈ calls (scan FTYPE names metric console specs).1 →
  d !! k = Some v →
  ∃ i pool, names !! i = Some k ∧ grid specs !! i = Some pool ∧ v ∈ pool.
Proof.
  intros Hvalid Hd Hk. revert Hd. unfold scan.
  rewrite (normalize_valid _ Hvalid), product_nested_loops. unfold enumerate.
  destruct (scan_loop_calls names metric console 0 (nested_loops (grid specs))
              (mk_trace [] []) []) as (n & _ & _ & Hcalls & _).
  destruct (scan_loop _ _ _ _ _ _). simpl in *. rewrite Hcalls.
  change (map ?f ?l) with (f <$> l). intros Hd.
  apply list_elem_of_fmap in Hd as (p & -> & Hp).
  apply elem_of_take in Hp as (j & Hp & _).
  apply list_elem_of_lookup_2, nested_loops_elem in Hp.
  apply point_mapping_lookup in Hk as (i & Hname & Hval & _).
  destruct (Forall2_lookup_l _ _ _ _ _ Hp Hval) as (pool & Hpool & Hin).
  by exists i, pool.
Qed.

Lemma scan_calls_from_axes_witness :
  ∃ i pool, ["a"; "b"] !! i = Some "b" ∧ grid example_axes !! i = Some pool ∧
            PNum 20 ∈ pool.
Proof.
  apply (scan_calls_from_axes (float_dtype Float64) ["a"; "b"] metric_a100b
           quiet example_axes {["a" := PNum 1; "b" := PNum 20]} "b" (PNum 20));
    [reflexivity| |reflexivity].
  apply list_elem_of_In. vm_compute. right. left. reflexivity.
Defined.

(** When no axis repeats a value, no point is enumerated twice. *)
Theorem product_no_repeat {A} (pools : list (list A)) :
  Forall NoDup pools → NoDup (product pools).
Proof.
  rewrite product_nested_loops.
  induction 1 as [|pool pools Hpool _ IH]; simpl.
  - apply NoDup_singleton.
  - rewrite flat_map_bind. apply NoDup_bind; [| |done].
    + intros x1 x2 p _ _ Hp1 Hp2.
      change (map (cons ?x) ?l) with (cons x <$> l) in Hp1, Hp2.
      apply list_elem_of_fmap in Hp1 as (q1 & -> & _).
      apply list_elem_of_fmap in Hp2 as (q2 & [= -> _] & _). done.
    + intros x _. change (map (cons x) ?l) with (cons x <$> l).
      apply NoDup_fmap_2; [|done]. by intros q1 q2 [= ->].
Qed.

Lemma product_no_repeat_witness :
  NoDup (product [[1; 2]; [10; 20; 30]]).
Proof.
  apply (product_no_repeat [[1; 2]; [10; 20; 30]]).
  apply (bool_decide_unpack _). vm_compute. reflexivity.
Defined.

(** * The driver script *)

(** ** Strings and patterns *)

Lemma append_cons c s t : String c s +:+ t = String c (s +:+ t).
Proof. done. Qed.

Lemma append_assoc s t u : (s +:+ t) +:+ u = s +:+ t +:+ u.
Proof. induction s as [|c s IH]; [done|]. by rewrite !append_cons, IH. Qed.

Lemma starts_with_app p s : starts_with p (p +:+ s) = Some s.
Proof.
  induction p as [|c p IH]; [by destruct s|].
  rewrite append_cons. simpl. by rewrite Ascii.eqb_refl.
Qed.

Lemma starts_with_Some p s r : starts_with p s = Some r → s = p +:+ r.
Proof.
  revert s. induction p as [|c p IH]; intros s; simpl.
  - intros [= <-]. reflexivity.
  - destruct s as [|c' s]; simpl; [done|].
    destruct (Ascii.eqb c c') eqn:Hc; [|done].
    apply Ascii.eqb_eq in Hc as ->. intros ->%IH. done.
Qed.

Lemma match_alt_elem alts post s g :
  match_alt alts post s = Some g → g ∈ alts.
Proof.
  induction alts as [|a alts IH]; simpl; [done|].
  destruct (starts_with a s) as [rest|]; [destruct (starts_with post rest)|].
  - intros [= ->]. by left.
  - intros ?%IH. by right.
  - intros ?%IH. by right.
Qed.

Lemma findall_first_alt pre alts post s g :
  findall_first (mk_pattern pre (Alt alts) post) s = Some g → g ∈ alts.
Proof.
  induction s as [|c s IH]; simpl; unfold match_at; simpl;
    destruct (starts_with pre _) as [rest|];
    try destruct (match_alt alts post rest) eqn:Hm; try done;
    try (intros [= <-]; by eapply match_alt_elem).
Qed.

(** A run of class characters in front of [post], when [post] does not
    start with a class character, is captured whole. *)
Lemma match_class_run cls post run rest c0 post' :
  post = String c0 post' → cls c0 = false →
  run ≠ EmptyString → string_forall cls run = true →
  match_class cls post (run +:+ post +:+ rest) = Some run.
Proof.
  intros -> Hc0. induction run as [|c run IH]; [done|]. intros _ Hrun.
  simpl in Hrun. apply andb_prop in Hrun as [Hc Hrun].
  rewrite append_cons. cbn [match_class]. rewrite Hc.
  destruct run as [|c' run].
  - change (EmptyString +:+ ?s) with s.
    rewrite starts_with_app, append_cons. cbn [match_class]. by rewrite Hc0.
  - by rewrite IH.
Qed.

Lemma findall_first_skip cls post skip s :
  string_forall (fun c => negb (cls c)) skip = true →
  findall_first (mk_pattern EmptyString (Class cls) post) (skip +:+ s)
  = findall_first (mk_pattern EmptyString (Class cls) post) s.
Proof.
  induction skip as [|c skip IH]; [done|]. simpl.
  intros [Hc Hskip]%andb_prop.
  unfold match_at. simpl. destruct (cls c); [done|]. by apply IH.
Qed.

(** ** Decimal numerals *)

Lemma is_nat_pretty_N_char d :
  (d < 10)%N → Ascii.is_nat (pretty_N_char d) = Some (N.to_nat d).
Proof.
  intros Hd. unfold pretty_N_char.
  do 10 (destruct d as [|d] using N.peano_ind; [done|]; try lia).
Qed.

Lemma int_go_pretty_N_go x s acc :
  ∃ k : nat,
    int_go acc (pretty_N_go x s) = int_go (acc * 10 ^ Z.of_nat k + Z.of_N x) s.
Proof.
  revert s. induction (N.lt_wf_0 x) as [x _ IH]; intros s.
  destruct (decide (x = 0%N)) as [->|Hx].
  - rewrite pretty_N_go_0. exists 0%nat. f_equal. lia.
  - rewrite pretty_N_go_step by lia.
    destruct (IH (x / 10)%N) with (s := String (pretty_N_char (x mod 10)) s)
      as [k ->]; [apply N.div_lt; lia|].
    exists (S k). simpl.
    rewrite is_nat_pretty_N_char by (apply N.mod_lt; lia). f_equal.
    rewrite Nat2Z.inj_succ, Z.pow_succ_r by lia.
    pose proof (N.div_mod x 10 ltac:(lia)). lia.
Qed.

Lemma digits_pretty_N_go x s :
  string_forall is_digit s = true →
  string_forall is_digit (pretty_N_go x s) = true.
Proof.
  revert s. induction (N.lt_wf_0 x) as [x _ IH]; intros s Hs.
  destruct (decide (x = 0%N)) as [->|Hx].
  - by rewrite pretty_N_go_0.
  - rewrite pretty_N_go_step by lia. apply IH; [apply N.div_lt; lia|].
    simpl. rewrite Hs, andb_true_r. unfold is_digit.
    by rewrite is_nat_pretty_N_char by (apply N.mod_lt; lia).
Qed.

Lemma pretty_N_go_cons x c s : pretty_N_go x (String c s) ≠ EmptyString.
Proof.
  revert c s. induction (N.lt_wf_0 x) as [x _ IH]; intros c s.
  destruct (decide (x = 0%N)) as [->|Hx].
  - by rewrite pretty_N_go_0.
  - rewrite pretty_N_go_step by lia. apply IH, N.div_lt; lia.
Qed.

(** [str] of a natural number is a non-empty string of digits that [int]
    reads back. *)
Lemma pretty_Z_numeral n :
  (0 ≤ n)%Z →
  string_forall is_digit (pretty n) = true ∧
  pretty n ≠ EmptyString ∧
  py_int (pretty n) = Some n.
Proof.
  intros Hn. destruct n as [|p|p]; [done| |lia].
  change (pretty (Z.pos p)) with (pretty_N_go (N.pos p) EmptyString).
  assert (pretty_N_go (N.pos p) EmptyString ≠ EmptyString) as Hne.
  { rewrite pretty_N_go_step by lia. apply pretty_N_go_cons. }
  split; [by apply digits_pretty_N_go|]. split; [done|].
  unfold py_int. destruct (pretty_N_go (N.pos p) EmptyString) eqn:Hp; [done|].
  rewrite <- Hp. destruct (int_go_pretty_N_go (N.pos p) EmptyString 0) as [k ->].
  simpl. f_equal.
Qed.

Lemma int_go_nonneg s acc v : int_go acc s = Some v → (0 ≤ acc)%Z → (0 ≤ v)%Z.
Proof.
  revert acc. induction s as [|c s IH]; intros acc; simpl.
  - by intros [= ->].
  - destruct (Ascii.is_nat c) as [d|]; [|done].
    intros H Hacc. apply (IH _ H). lia.
Qed.

(** ** Settings read off the name *)

(** Whatever the name is, the normalisation passed to the tables is one of
    the two the pattern knows, [pde] when the name has no such field. *)
Theorem norm_version_known code :
  norm_version code = "pde" ∨ norm_version code = "avgsurfarea".
Proof.
  unfold norm_version.
  destruct (findall_first _ code) as [g|] eqn:Hg; [|by left].
  apply findall_first_alt in Hg.
  apply elem_of_cons in Hg as [->|Hg]; [by left|].
  apply elem_of_cons in Hg as [->|Hg]; [by right|].
  by apply not_elem_of_nil in Hg.
Qed.

Lemma clsim_not_dom_time_polar code :
  py_in "clsim_tables" code = true →
  String.eqb code "dom_time_polar_tables" = false.
Proof.
  intros H. destruct (String.eqb code "dom_time_polar_tables") eqn:Heq; [|done].
  apply String.eqb_eq in Heq. rewrite Heq in H. vm_compute in H. discriminate.
Qed.

(** For a name of the CLSim kind, the number of phi samples the script
    binds is the number written in front of the first [phi] field: a name
    made of a digit-free prefix, the decimal numeral of [n], [phi] and any
    suffix gives [n], unless the name has [no_dir]. *)
Theorem num_phi_samples_field prefix n suffix :
  string_forall (fun c => negb (is_digit c)) prefix = true →
  (0 ≤ n)%Z →
  py_in "clsim_tables" (prefix +:+ pretty n +:+ "phi" +:+ suffix) = true →
  py_in "no_dir" (prefix +:+ pretty n +:+ "phi" +:+ suffix) = false →
  script_num_phi_samples (prefix +:+ pretty n +:+ "phi" +:+ suffix)
  = Ok (Some n).
Proof.
  intros Hprefix Hn Hclsim Hdir. unfold script_num_phi_samples.
  rewrite (clsim_not_dom_time_polar _ Hclsim), Hclsim. do 2 f_equal.
  unfold num_phi_samples. rewrite Hdir.
  destruct (pretty_Z_numeral n Hn) as (Hdigits & Hne & Hint).
  rewrite findall_first_skip by done.
  assert (findall_first (mk_pattern "" (Class is_digit) "phi")
            (pretty n +:+ "phi" +:+ suffix) = Some (pretty n)) as ->.
  { destruct (pretty n +:+ "phi" +:+ suffix) eqn:Hs.
    - by destruct (pretty n).
    - rewrite <- Hs. unfold findall_first at 1. rewrite Hs, <- Hs.
      unfold match_at. simpl.
      by rewrite (match_class_run is_digit "phi" (pretty n) suffix "p" "hi"). }
  by rewrite Hint.
Qed.

Lemma num_phi_samples_field_witness :
  script_num_phi_samples
    ("clsim_tables_pdenorm_" +:+ pretty 100%Z +:+ "phi" +:+ "_r")
  = Ok (Some 100%Z).
Proof.
  apply (num_phi_samples_field "clsim_tables_pdenorm_" 100 "_r");
    [reflexivity|lia|reflexivity|reflexivity].
Defined.

(** The number of phi samples is never negative, and it is exactly one
    whenever directionality is switched off, whatever [phi] field the name
    carries. *)
Theorem num_phi_samples_range code :
  (0 ≤ num_phi_samples code)%Z ∧
  (use_directionality code = false → num_phi_samples code = 1%Z).
Proof.
  unfold num_phi_samples, use_directionality.
  destruct (py_in "no_dir" code); [split; [lia|done]|].
  split; [|done].
  destruct (findall_first _ code) as [g|]; [|lia].
  destruct (py_int g) as [n|] eqn:Hn; [|lia].
  unfold py_int in Hn. destruct g; [done|]. by eapply int_go_nonneg.
Qed.

(** ** Table files *)

Lemma path_join_plain a b c b' :
  b = String c b' → c ≠ "/"%char →
  a ≠ EmptyString → ends_with_slash a = false →
  path_join a b = a +:+ "/" +:+ b.
Proof.
  intros -> Hc Ha Hslash. unfold path_join. rewrite Hslash.
  destruct a; [done|].
  destruct c as [[] [] [] [] [] [] [] []]; done.
Qed.

Lemma table_path_orig code string_ dom :
  py_in "orig" code = true →
  table_path code string_ dom
  = "/fastio/justin/retro_tables/full1000_npy/full1000_"
    +:+ string_ +:+ pretty (dom - 1)%Z.
Proof.
  intros H. unfold table_path. rewrite H.
  rewrite (path_join_plain _ _ "f" ("ull1000_" +:+ string_ +:+ pretty (dom - 1)%Z));
    done.
Qed.

Lemma table_path_combined code string_ dom :
  py_in "orig" code = false →
  table_path code string_ dom
  = "/data/icecube/retro_tables/large_5d_notilt_combined/large_5d_notilt_string_"
    +:+ string_ +:+ "_depth_" +:+ pretty (dom - 1)%Z.
Proof.
  intros H. unfold table_path. rewrite H.
  rewrite (path_join_plain _ _ "l"
             ("arge_5d_notilt_string_" +:+ string_ +:+ "_depth_"
              +:+ pretty (dom - 1)%Z)); done.
Qed.

(** Under either directory scheme, two tables of the strings [dc] and [ic]
    are read from the same file only if they are the same table. *)
Lemma table_path_inj code s1 s2 d1 d2 :
  s1 ∈ ["dc"; "ic"] → s2 ∈ ["dc"; "ic"] →
  table_path code s1 d1 = table_path code s2 d2 →
  s1 = s2 ∧ d1 = d2.
Proof.
  intros Hs1 Hs2.
  assert (∀ s, s ∈ ["dc"; "ic"] → s = "dc" ∨ s = "ic") as Hcases.
  { intros s Hs. apply elem_of_cons in Hs as [->|Hs]; [by left|].
    apply elem_of_cons in Hs as [->|Hs]; [by right|].
    by apply not_elem_of_nil in Hs. }
  destruct (py_in "orig" code) eqn:Horig.
  - rewrite !table_path_orig by done. intros H%(inj (String.app _)).
    destruct (Hcases _ Hs1) as [-> | ->], (Hcases _ Hs2) as [-> | ->];
      try discriminate H; split; try done;
      apply (inj (String.app _)), (inj pretty) in H; lia.
  - rewrite !table_path_combined by done. intros H%(inj (String.app _)).
    destruct (Hcases _ Hs1) as [-> | ->], (Hcases _ Hs2) as [-> | ->];
      try discriminate H; split; try done;
      apply (inj (String.app _)), (inj (String.app _)), (inj pretty) in H; lia.
Qed.

(** ** Loading the tables *)

Lemma od_set_fresh {K A} `{EqDecision K} (k : K) (v : A) d :
  k ∉ map fst d → od_set k v d = d ++ [(k, v)].
Proof.
  induction d as [|[k' v'] d IH]; simpl; [done|].
  intros Hk. apply not_elem_of_cons in Hk as [Hne Hk].
  destruct (decide (k' = k)) as [->|_]; [done|]. by rewrite IH.
Qed.

Section Loading.
Variable code : string.
Variable load_table : string → string → cell → option exn.
Hypothesis loads_succeed :
  ∀ s d, load_table (table_path code s d) s (CInt d) = None.

Lemma load_tables_loop_ok (keys : list (string * Z)) loads tables :
  load_tables_loop code load_table
    (map (fun k => [CStr k.1; CInt k.2]) keys) loads tables
  = (loads ++ map (fun k => load_of code k.1 k.2) keys,
     Ok (fold_left (fun t k => od_set (k.1, CInt k.2)
                                 (table_entry code k.1 k.2) t)
           keys tables)).
Proof.
  revert loads tables. induction keys as [|[s d] keys IH]; intros loads tables.
  - simpl. by rewrite app_nil_r.
  - simpl. rewrite loads_succeed, IH. simpl. by rewrite <- app_assoc.
Qed.

Lemma fold_od_set_fresh (keys : list (string * Z)) tables :
  NoDup (map fst tables ++ map (fun k => (k.1, CInt k.2)) keys) →
  fold_left (fun t k => od_set (k.1, CInt k.2) (table_entry code k.1 k.2) t)
    keys tables
  = tables ++ map (fun k => ((k.1, CInt k.2), table_entry code k.1 k.2)) keys.
Proof.
  revert tables. induction keys as [|k keys IH]; intros tables Hnd; simpl.
  - by rewrite app_nil_r.
  - simpl in Hnd. apply NoDup_app in Hnd as (Htab & Hdisj & Hkeys).
    apply NoDup_cons in Hkeys as [Hk Hkeys].
    rewrite od_set_fresh.
    2:{ intros Hin. apply (Hdisj _ Hin). by left. }
    rewrite IH, <- app_assoc; [done|].
    rewrite map_app. simpl. rewrite <- app_assoc. simpl.
    apply NoDup_app. split; [done|]. split.
    + intros x Hx [->|Hin]%elem_of_cons.
      * apply (Hdisj _ Hx). by left.
      * apply (Hdisj _ Hx). by right.
    + by apply NoDup_cons.
Qed.

(** Under the guards of lines 162, 182 and 233 the script runs the loop. *)
Lemma script_tables_loop doms :
  py_in "clsim_tables" code = true →
  py_in "single_table" code = false →
  script_tables code load_table doms
  = match load_tables code load_table doms with
    | (loads, Ok tables) => (loads, Ok (Some tables))
    | (loads, Raise e) => (loads, Raise e)
    end.
Proof.
  intros Hclsim Hsingle. unfold script_tables.
  by rewrite (clsim_not_dom_time_polar _ Hclsim), Hclsim, Hsingle.
Qed.
End Loading.

Lemma product_dc_ic doms :
  product [[CStr "dc"; CStr "ic"]; map CInt doms]
  = map (fun k : string * Z => [CStr k.1; CInt k.2])
      (map (pair "dc") doms ++ map (pair "ic") doms).
Proof.
  rewrite product_nested_loops. simpl. rewrite app_nil_r, !map_app, !map_map.
  f_equal; induction doms as [|d doms IH]; simpl; by rewrite ?IH.
Qed.

(** For a name of the CLSim kind without [single_table], when no load
    fails, the tables are loaded for [dc] first and then for [ic], in the
    order of [doms], one call per pair: as many calls as line 257
    announces, each for the file of depth [dom - 1]. *)
Theorem load_tables_calls code load_table doms :
  py_in "clsim_tables" code = true →
  py_in "single_table" code = false →
  (∀ s d, load_table (table_path code s d) s (CInt d) = None) →
  ∃ tables,
    script_tables code load_table doms
    = (map (load_of code "dc") doms ++ map (load_of code "ic") doms,
       Ok (Some tables)) ∧
    length (script_tables code load_table doms).1 = announced_tables doms.
Proof.
  intros Hclsim Hsingle Hok.
  rewrite (script_tables_loop code load_table doms Hclsim Hsingle).
  unfold load_tables.
  rewrite product_dc_ic, (load_tables_loop_ok code load_table Hok).
  eexists. split.
  - simpl. by rewrite map_app, !map_map.
  - simpl. rewrite length_map, length_app, !length_map.
    unfold announced_tables. lia.
Qed.

Lemma load_tables_calls_witness :
  ∃ tables,
    script_tables "clsim_tables_pdenorm" loads_fine doms_25_60
    = (map (load_of "clsim_tables_pdenorm" "dc") doms_25_60
       ++ map (load_of "clsim_tables_pdenorm" "ic") doms_25_60,
       Ok (Some tables)) ∧
    length (script_tables "clsim_tables_pdenorm" loads_fine doms_25_60).1
    = announced_tables doms_25_60.
Proof.
  apply (load_tables_calls "clsim_tables_pdenorm" loads_fine doms_25_60);
    [reflexivity|reflexivity|].
  intros s d. reflexivity.
Defined.

(** For a name of the CLSim kind without [single_table], when [doms] lists
    no DOM twice and no load fails, no file is loaded twice, and the record
    kept under [run_info['tables']] has exactly one entry per load, in load
    order, under the key [(string, dom)]. *)
Theorem load_tables_distinct code load_table doms :
  py_in "clsim_tables" code = true →
  py_in "single_table" code = false →
  NoDup doms →
  (∀ s d, load_table (table_path code s d) s (CInt d) = None) →
  NoDup (map (fun c => fpath (lc_info c))
           (script_tables code load_table doms).1) ∧
  (script_tables code load_table doms).2
  = Ok (Some (map (fun c => ((lc_string c, lc_dom c), lc_info c))
                (script_tables code load_table doms).1)).
Proof.
  intros Hclsim Hsingle Hnd Hok.
  rewrite (script_tables_loop code load_table doms Hclsim Hsingle).
  unfold load_tables.
  rewrite product_dc_ic, (load_tables_loop_ok code load_table Hok). simpl.
  assert (NoDup (map (pair "dc") doms ++ map (pair "ic") doms)) as Hkeys.
  { apply NoDup_app. split; [|split].
    - by apply (NoDup_fmap_2 (pair "dc")).
    - intros k Hdc Hic.
      change (map ?f ?l) with (f <$> l) in Hdc, Hic.
      apply list_elem_of_fmap in Hdc as (d1 & -> & _).
      by apply list_elem_of_fmap in Hic as (d2 & [=] & _).
    - by apply (NoDup_fmap_2 (pair "ic")). }
  split.
  - rewrite map_map. simpl.
    change (map ?f ?l) with (f <$> l).
    apply NoDup_fmap_2_strong; [|done].
    intros [s1 d1] [s2 d2] H1 H2 Hpath. simpl in *.
    assert (∀ s d, (s, d) ∈ (pair "dc" <$> doms) ++ (pair "ic" <$> doms) →
                   s ∈ ["dc"; "ic"]) as Hs.
    { intros s d [Hin|Hin]%elem_of_app;
        apply list_elem_of_fmap in Hin as (d' & [= -> ->] & _);
        rewrite !elem_of_cons; auto. }
    destruct (table_path_inj code s1 s2 d1 d2) as [-> ->]; eauto.
  - rewrite fold_od_set_fresh.
    + simpl. do 2 f_equal. rewrite map_map. apply map_ext. by intros [s d].
    + simpl. change (map ?f ?l) with (f <$> l).
      apply NoDup_fmap_2_strong; [|done].
      by intros [s1 d1] [s2 d2] _ _ [= -> ->].
Qed.

Lemma load_tables_distinct_witness :
  NoDup (map (fun c => fpath (lc_info c))
           (script_tables "clsim_tables_orig" loads_fine doms_25_60).1) ∧
  (script_tables "clsim_tables_orig" loads_fine doms_25_60).2
  = Ok (Some (map (fun c => ((lc_string c, lc_dom c), lc_info c))
                (script_tables "clsim_tables_orig" loads_fine doms_25_60).1)).
Proof.
  apply (load_tables_distinct "clsim_tables_orig" loads_fine doms_25_60).
  - reflexivity.
  - reflexivity.
  - apply (bool_decide_unpack _). vm_compute. reflexivity.
  - intros s d. reflexivity.
Defined.

(** ** Plot files *)

Lemma digit_not_underscore s :
  string_forall is_digit s = true →
  string_forall (fun c => negb (Ascii.eqb c "_")) s = true.
Proof.
  induction s as [|c s IH]; simpl; [done|].
  intros [Hc Hs]%andb_prop. rewrite (IH Hs), andb_true_r.
  destruct (Ascii.eqb c "_") eqn:Heq; [|done].
  apply Ascii.eqb_eq in Heq as ->. done.
Qed.

Lemma pretty_Z_no_underscore (z : Z) :
  string_forall (fun c => negb (Ascii.eqb c "_")) (pretty z) = true.
Proof.
  destruct z as [|p|p]; [done| |].
  - apply digit_not_underscore, (pretty_Z_numeral (Z.pos p)). lia.
  - change (pretty (Z.neg p)) with ("-" +:+ pretty (Z.pos p)).
    rewrite append_cons. simpl.
    apply digit_not_underscore, (pretty_Z_numeral (Z.pos p)). lia.
Qed.

(** Two strings without underscore, each followed by an underscore and a
    rest, agree as wholes only if they agree part by part. *)
Lemma split_at_underscore a a' r r' :
  string_forall (fun c => negb (Ascii.eqb c "_")) a = true →
  string_forall (fun c => negb (Ascii.eqb c "_")) a' = true →
  a +:+ String "_" r = a' +:+ String "_" r' →
  a = a' ∧ r = r'.
Proof.
  revert a'. induction a as [|c a IH]; intros [|c' a']; simpl.
  - intros _ _ [= ->]. done.
  - intros _ [Hc' _]%andb_prop. rewrite append_cons. intros [= <- _]. done.
  - intros [Hc _]%andb_prop _. rewrite append_cons. intros [= -> _]. done.
  - intros [_ Ha]%andb_prop [_ Ha']%andb_prop. rewrite !append_cons.
    intros [= -> H]. destruct (IH _ Ha Ha' H) as [-> ->]. done.
Qed.

(** The name of a plot determines the string and the DOM it shows, and
    which of the two totals were positive: no two DOMs of a run write to
    the same file. *)
Theorem plot_fname_inj sim code s1 d1 r1 c1 s2 d2 r2 c2 :
  plot_fname sim code s1 d1 r1 c1 = plot_fname sim code s2 d2 r2 c2 →
  s1 = s2 ∧ d1 = d2 ∧ r1 = r2 ∧ c1 = c2.
Proof.
  unfold plot_fname.
  intros H. do 5 apply (inj (String.app _)) in H.
  apply split_at_underscore in H as [Hs H]; try apply pretty_Z_no_underscore.
  apply split_at_underscore in H as [Hd H]; try apply pretty_Z_no_underscore.
  apply (inj pretty) in Hs, Hd.
  destruct r1, c1, r2, c2; try discriminate H; done.
Qed.

Lemma plot_fname_inj_witness :
  86%Z = 86%Z ∧ 25%Z = 25%Z ∧ true = true ∧ false = false.
Proof.
  apply (plot_fname_inj "upgoing_muon" "clsim_tables_pdenorm"
           86 25 true false 86 25 true false).
  reflexivity.
Defined.
